(** * Data Sweeper Pro ([app.py]): cleaning, conversion naming and bundling

    A shallow embedding of the per-file pipeline of [app.py]:
    ingestion by extension, the three cleaning handlers (remove duplicates,
    normalize numeric columns, fill missing values), the visualization
    guard, the naming of the converted file and the bulk archive.

    The script is a sequence of dataframe-library calls.  Each call is
    embedded by the function it performs on an in-memory table:

    - a table is an ordered list of labelled columns;
    - a numeric cell (dtype [int64] / [float64]) is either [NaN] or an exact
      rational: rounding, overflow, infinities and the sign of zero are
      outside this model;
    - label alignment of frame/series arithmetic is by label lookup, as the
      library does it. *)

From Stdlib Require Import QArith Qcanon Ascii String.
From stdpp Require Import base option list sorting strings.

Set Default Proof Using "Type".

(** ** Numeric cells *)

Module Float.

(** A [float64] cell: [None] is NaN (the missing-value marker). *)
Abbreviation t := (option Qc).

Definition nan : t := None.
Definition of_Q (x : Q) : t := Some (Q2Qc x).
Definition of_Z (z : Z) : t := of_Q (inject_Z z).

Definition isna (a : t) : bool :=
  match a with None => true | Some _ => false end.

(** [a - b]: NaN propagates. *)
Definition sub (a b : t) : t :=
  match a, b with
  | Some x, Some y => Some (x - y)%Qc
  | _, _ => None
  end.

(** [a / b] (true division).  [0 / 0] is NaN and raises nothing.  A
    non-zero numerator over zero is an infinity in IEEE arithmetic, which
    this cell type does not represent: it is mapped to NaN here, and
    [normalize] never computes it (see [scale_zero_range_numerator]). *)
Definition div (a b : t) : t :=
  match a, b with
  | Some x, Some y =>
      if Qc_eq_bool y (Q2Qc 0) then None else Some (x / y)%Qc
  | _, _ => None
  end.

(** [Series.min()] / [Series.max()] with [skipna=True]: NaN cells are
    skipped; the result is NaN when no cell is present. *)
Definition min2 (m x : Qc) : Qc := if Qclt_le_dec x m then x else m.
Definition max2 (m x : Qc) : Qc := if Qclt_le_dec m x then x else m.

Definition reduce (op : Qc → Qc → Qc) (vs : list t) : t :=
  foldl (λ acc v,
           match v, acc with
           | None, _ => acc
           | Some x, None => Some x
           | Some x, Some m => Some (op m x)
           end) None vs.

Definition min (vs : list t) : t := reduce min2 vs.
Definition max (vs : list t) : t := reduce max2 vs.

(** The present (non-NaN) values of a column, in order. *)
Definition present (vs : list t) : list Qc := omap id vs.

Definition sum (xs : list Qc) : Qc := foldr Qcplus (Q2Qc 0) xs.

Definition count (xs : list Qc) : Qc := Q2Qc (inject_Z (Z.of_nat (length xs))).

(** [Series.mean()] with [skipna=True]: sum of the present values over
    their number; NaN when there is none. *)
Definition mean (vs : list t) : t :=
  match present vs with
  | [] => None
  | xs => Some (sum xs / count xs)%Qc
  end.

End Float.

#[export] Instance Qc_eq_dec' : EqDecision Qc := Qc_eq_dec.

(** ** Tables *)

Module Pandas.

(** A column is numeric (selected by [select_dtypes(include=['number'])])
    or of any other dtype, whose cells are text or missing. *)
Inductive column : Type :=
| NumCol (vs : list Float.t)
| ObjCol (vs : list (option string)).

Inductive cell : Type :=
| NumCell (v : Float.t)
| ObjCell (v : option string).

#[export] Instance cell_eq_dec : EqDecision cell.
Proof. solve_decision. Defined.

#[export] Instance column_eq_dec : EqDecision column.
Proof. solve_decision. Defined.

(** Labelled columns, left to right. *)
Abbreviation DataFrame := (list (string * column)).

(** A row, as the tuple of its cells across all columns. *)
Abbreviation row := (list cell).

Definition cells (c : column) : list cell :=
  match c with
  | NumCol vs => NumCell <$> vs
  | ObjCol vs => ObjCell <$> vs
  end.

Definition col_len (c : column) : nat :=
  match c with
  | NumCol vs => length vs
  | ObjCol vs => length vs
  end.

(** [df.columns] *)
Definition columns (df : DataFrame) : list string := fst <$> df.

(** [len(df)]: the length of the row index. *)
Definition nrows (df : DataFrame) : nat :=
  match df with
  | [] => 0
  | (_, c) :: _ => col_len c
  end.

(** The rows of a table, top to bottom. *)
Definition rows (df : DataFrame) : list row :=
  foldr (λ (nc : string * column) acc, zip_with cons (cells nc.2) acc)
        (replicate (nrows df) []) df.

(** Table invariant: labels are unique and all columns have the length
    of the row index. *)
Definition wf (df : DataFrame) : Prop :=
  NoDup (columns df) ∧
  Forall (λ nc : string * column, col_len nc.2 = nrows df) df.

(** [df[c]] for one label. *)
Fixpoint get_col (df : DataFrame) (c : string) : option column :=
  match df with
  | [] => None
  | (n, col) :: df' => if decide (n = c) then Some col else get_col df' c
  end.

(** *** Boolean indexing and duplicates *)

(** [xs[mask]] *)
Fixpoint mask_filter {A} (m : list bool) (l : list A) : list A :=
  match m, l with
  | b :: m', x :: l' =>
      if b then x :: mask_filter m' l' else mask_filter m' l'
  | _, _ => []
  end.

Definition col_mask (m : list bool) (c : column) : column :=
  match c with
  | NumCol vs => NumCol (mask_filter m vs)
  | ObjCol vs => ObjCol (mask_filter m vs)
  end.

(** [df[mask]] *)
Definition bool_index (df : DataFrame) (m : list bool) : DataFrame :=
  (λ nc : string * column, (nc.1, col_mask m nc.2)) <$> df.

(** [df.duplicated()] with [keep='first']: a row is marked when an equal
    row was seen above it.  Two missing cells compare equal. *)
Fixpoint duplicated_from (seen : list row) (rs : list row) : list bool :=
  match rs with
  | [] => []
  | r :: rs' => bool_decide (r ∈ seen) :: duplicated_from (r :: seen) rs'
  end.

Definition duplicated (df : DataFrame) : list bool :=
  duplicated_from [] (rows df).

(** [df.drop_duplicates(inplace=True)]: [df[~df.duplicated()]]. *)
Definition drop_duplicates (df : DataFrame) : DataFrame :=
  bool_index df (negb <$> duplicated df).

(** *** Numeric sub-frames and series *)

(** [df.select_dtypes(include=['number'])] *)
Definition is_numeric (c : column) : bool :=
  match c with NumCol _ => true | ObjCol _ => false end.

Definition select_dtypes_number (df : DataFrame) : DataFrame :=
  filter (λ nc : string * column, is_numeric nc.2 = true) df.

(** A frame all of whose columns are numeric, and a series indexed by
    column label. *)
Abbreviation NumFrame := (list (string * list Float.t)).
Abbreviation Series := (list (string * Float.t)).

(** [df[cols]] for labels [cols] taken from the numeric selection of
    [df]: each label is looked up in [df]. *)
Definition getitem (df : DataFrame) (cols : list string) : NumFrame :=
  omap (λ c, match get_col df c with
             | Some (NumCol vs) => Some (c, vs)
             | _ => None
             end) cols.

(** [s[c]] under alignment: a label the series lacks yields NaN. *)
Fixpoint series_get (s : Series) (c : string) : Float.t :=
  match s with
  | [] => Float.nan
  | (n, v) :: s' => if decide (n = c) then v else series_get s' c
  end.

(** Column-wise reductions [nf.min()], [nf.max()], [nf.mean()]. *)
Definition frame_reduce (f : list Float.t → Float.t) (nf : NumFrame) : Series :=
  (λ cv : string * list Float.t, (cv.1, f cv.2)) <$> nf.

Definition frame_min : NumFrame → Series := frame_reduce Float.min.
Definition frame_max : NumFrame → Series := frame_reduce Float.max.
Definition frame_mean : NumFrame → Series := frame_reduce Float.mean.

(** [nf - s], [nf / s]: the series is broadcast down each column of the
    same label. *)
Definition frame_op (op : Float.t → Float.t → Float.t)
           (nf : NumFrame) (s : Series) : NumFrame :=
  (λ cv : string * list Float.t,
     (cv.1, (λ v, op v (series_get s cv.1)) <$> cv.2)) <$> nf.

Definition frame_sub : NumFrame → Series → NumFrame := frame_op Float.sub.
Definition frame_div : NumFrame → Series → NumFrame := frame_op Float.div.

(** [a - b] on series, aligned by label. *)
Definition series_sub (a b : Series) : Series :=
  (λ cv : string * Float.t,
     (cv.1, Float.sub cv.2 (series_get b cv.1))) <$> a.

(** [nf.fillna(s)]: in each column, NaN cells take the series' value for
    that label. *)
Definition fill_cell (m : Float.t) (v : Float.t) : Float.t :=
  match v with
  | None => m
  | Some x => Some x
  end.

Definition fillna (nf : NumFrame) (s : Series) : NumFrame :=
  (λ cv : string * list Float.t,
     (cv.1, fill_cell (series_get s cv.1) <$> cv.2)) <$> nf.

(** [df[c] = col]: an existing label is replaced in place, a new one is
    appended. *)
Definition setitem_col (df : DataFrame) (c : string) (col : column) : DataFrame :=
  if decide (c ∈ columns df)
  then (λ nc : string * column,
          if decide (nc.1 = c) then (nc.1, col) else nc) <$> df
  else df ++ [(c, col)].

(** [df[cols] = nf]: the labels are paired with the columns of the value
    frame in order, and assigned one by one. *)
Definition setitem (df : DataFrame) (cols : list string) (nf : NumFrame) : DataFrame :=
  foldl (λ d (kv : string * (string * list Float.t)),
           setitem_col d kv.1 (NumCol kv.2.2)) df (zip cols nf).

End Pandas.

(** ** Strings: the calls [app.py] makes on file names

    File names are byte strings here; [lower] is the ASCII case map. *)

Module Str.

Definition chars : string → list ascii := list_ascii_of_string.
Definition of_chars : list ascii → string := string_of_list_ascii.

Definition lower_char (c : ascii) : ascii :=
  let n := nat_of_ascii c in
  if (65 <=? n)%nat && (n <=? 90)%nat then ascii_of_nat (n + 32) else c.

(** [s.lower()] *)
Definition lower (s : string) : string := of_chars (lower_char <$> chars s).

(** [p.rfind(c)]: the highest index holding [c], or [-1]. *)
Fixpoint rfind_from (i : Z) (acc : Z) (p : list ascii) (c : ascii) : Z :=
  match p with
  | [] => acc
  | a :: p' => rfind_from (i + 1) (if decide (a = c) then i else acc) p' c
  end.

Definition rfind (p : list ascii) (c : ascii) : Z := rfind_from 0 (-1) p c.

Fixpoint starts_with (old s : list ascii) : bool :=
  match old, s with
  | [] , _ => true
  | o :: old', c :: s' => bool_decide (o = c) && starts_with old' s'
  | _ :: _, [] => false
  end.

(** [s.replace(old, new)] for a non-empty [old]: every non-overlapping
    occurrence, scanning from the left.  [skip] counts the characters of
    an occurrence still to be dropped. *)
Fixpoint replace_from (skip : nat) (old new s : list ascii) : list ascii :=
  match s with
  | [] => []
  | c :: s' =>
      match skip with
      | S k => replace_from k old new s'
      | O =>
          if starts_with old (c :: s')
          then new ++ replace_from (length old - 1) old new s'
          else c :: replace_from 0 old new s'
      end
  end.

(** [s.replace(old, new)]; an empty [old] matches before every character
    and at the end. *)
Definition replace (s old new : string) : string :=
  match chars old with
  | [] => of_chars (chars new ++ concat ((λ c, c :: chars new) <$> chars s))
  | o => of_chars (replace_from 0 o (chars new) (chars s))
  end.

End Str.

Module OsPath.

Definition sep : ascii := "/"%char.
Definition extsep : ascii := "."%char.

(** The scan of [genericpath._splitext] over the leading dots of the last
    path component: [true] as soon as a character other than the dot is
    found before [dotIndex]. *)
Fixpoint has_stem (fuel : nat) (p : list ascii) (filenameIndex : Z) : bool :=
  match fuel with
  | O => false
  | S fuel' =>
      match p !! Z.to_nat filenameIndex with
      | Some c =>
          if decide (c = extsep) then has_stem fuel' p (filenameIndex + 1)
          else true
      | None => false
      end
  end.

(** [os.path.splitext(p)] (POSIX flavour: no alternative separator). *)
Definition splitext (p : string) : string * string :=
  let cs := Str.chars p in
  let sepIndex := Str.rfind cs sep in
  let dotIndex := Str.rfind cs extsep in
  if bool_decide (dotIndex > sepIndex)%Z
     && has_stem (Z.to_nat (dotIndex - (sepIndex + 1))) cs (sepIndex + 1)
  then (Str.of_chars (take (Z.to_nat dotIndex) cs),
        Str.of_chars (drop (Z.to_nat dotIndex) cs))
  else (p, EmptyString).

End OsPath.

Import Pandas.

(** ** The script *)

Module App.

(** *** Cleaning handlers *)

(** [df.drop_duplicates(inplace=True)] *)
Definition remove_duplicates (df : DataFrame) : DataFrame :=
  drop_duplicates df.

(** [[
    numeric_cols = df.select_dtypes(include=['number']).columns
    df[numeric_cols] = (df[numeric_cols] - df[numeric_cols].min())
                       / (df[numeric_cols].max() - df[numeric_cols].min())
    ]] *)
Definition normalize (df : DataFrame) : DataFrame :=
  let numeric_cols := columns (select_dtypes_number df) in
  setitem df numeric_cols
    (frame_div
       (frame_sub (getitem df numeric_cols) (frame_min (getitem df numeric_cols)))
       (series_sub (frame_max (getitem df numeric_cols))
                   (frame_min (getitem df numeric_cols)))).

(** [[
    numeric_cols = df.select_dtypes(include=['number']).columns
    df[numeric_cols] = df[numeric_cols].fillna(df[numeric_cols].mean())
    ]] *)
Definition fill_missing (df : DataFrame) : DataFrame :=
  let numeric_cols := columns (select_dtypes_number df) in
  setitem df numeric_cols
    (fillna (getitem df numeric_cols) (frame_mean (getitem df numeric_cols))).

(** *** Widgets and rendered elements *)

(** [st.selectbox("Choose a chart type:", ...)] *)
Inductive chart_kind : Type := BarChart | Histogram | PieChart | ScatterPlot.

(** [st.radio(f"Convert {file.name} to:", ["CSV", "Excel"])] *)
Inductive conversion : Type := CSV | Excel.

(** What the user has set on the widgets of one file.  Every widget of
    the script is labelled or keyed by [file.name].  An axis selection is
    a position in the offered options. *)
Record widgets : Type := Widgets {
  btn_remove_duplicates : bool;
  btn_normalize : bool;
  btn_fill_missing : bool;
  chart_type : chart_kind;
  x_axis : nat;
  y_axis : nat;
  conversion_type : conversion;
}.

(** An uploaded file.  The parsers are library code: the file carries
    what [pd.read_csv(file)] and [pd.read_excel(file)] return on its
    bytes, [None] when the parser raises. *)
Record UploadedFile : Type := Upload {
  name : string;
  size : nat;
  read_csv : option (list (string * column));
  read_excel : option (list (string * column));
}.

(** The bytes held by a [BytesIO] after [df.to_csv(buffer, index=False)]
    or [df.to_excel(buffer, index=False, engine='openpyxl')], kept
    symbolic: the serializers are library code. *)
Inductive buffer : Type :=
| to_csv (df : DataFrame)
| to_excel (df : DataFrame).

Inductive figure : Type :=
| px_bar (df : DataFrame) (x y : string)
| px_histogram (df : DataFrame) (x : string)
| px_pie (df : DataFrame) (names values : string)
| px_scatter (df : DataFrame) (x y : string).

Inductive message : Type :=
| DuplicatesRemoved | NumericColumnsNormalized | MissingValuesFilled.

(** The output calls of the script, in order.  Static section headings
    and the input widgets themselves are left out: what the user set on
    them is in [widgets]. *)
Inductive element : Type :=
| st_error_unsupported (file_extension : string)
| st_subheader (file_name : string)
| st_write_size (bytes : nat)
| st_dataframe (head : DataFrame)
| st_write (m : message)
| st_plotly_chart (fig : figure)
| st_download_button (data : buffer) (file_name : string) (mime : string)
| st_download_all (zip : list (string * buffer)) (file_name : string)
| st_success.

(** [processed_files[k] = v] on an insertion-ordered dict: an existing
    key keeps its place and takes the new value. *)
Fixpoint dict_set {V} (d : list (string * V)) (k : string) (v : V) : list (string * V) :=
  match d with
  | [] => [(k, v)]
  | (k', v') :: d' =>
      if decide (k' = k) then (k', v) :: d' else (k', v') :: dict_set d' k v
  end.

Record state : Type := State {
  page : list element;
  processed_files : list (string * buffer);
}.

Definition render (e : element) (s : state) : state :=
  State (page s ++ [e]) (processed_files s).

(** [df.head()] *)
Definition head (df : DataFrame) : DataFrame :=
  bool_index df (replicate 5 true).

(** *** Per-file steps *)

(** The cleaning section: each pressed button applies its handler. *)
Definition clean (w : widgets) (df : DataFrame) (s : state) : DataFrame * state :=
  let '(df, s) :=
    if btn_remove_duplicates w
    then (remove_duplicates df, render (st_write DuplicatesRemoved) s)
    else (df, s) in
  let '(df, s) :=
    if btn_normalize w
    then (normalize df, render (st_write NumericColumnsNormalized) s)
    else (df, s) in
  if btn_fill_missing w
  then (fill_missing df, render (st_write MissingValuesFilled) s)
  else (df, s).

(** [st.selectbox(label, options)]: the option at the chosen position
    (the first one by default). *)
Definition selectbox (options : list string) (i : nat) : string :=
  default (default EmptyString (options !! 0%nat)) (options !! i).

(** The visualization section: a chart is drawn only behind the guard
    [len(numeric_columns) >= 2]; there is no [else] branch. *)
Definition visualize (w : widgets) (df : DataFrame) (s : state) : state :=
  let numeric_columns := columns (select_dtypes_number df) in
  if (2 <=? length numeric_columns)%nat then
    let x := selectbox numeric_columns (x_axis w) in
    let y := selectbox numeric_columns (y_axis w) in
    let fig :=
      match chart_type w with
      | BarChart => px_bar df x y
      | Histogram => px_histogram df x
      | PieChart => px_pie df x y
      | ScatterPlot => px_scatter df x y
      end in
    render (st_plotly_chart fig) s
  else s.

(** The name of the converted file:
    [file.name.replace(file_extension, ".csv")] or
    [file.name.replace(file_extension, ".xlsx")]. *)
Definition target_extension (c : conversion) : string :=
  match c with CSV => ".csv" | Excel => ".xlsx" end.

Definition output_name (file_name file_extension : string) (c : conversion) : string :=
  Str.replace file_name file_extension (target_extension c).

Definition mime_type (c : conversion) : string :=
  match c with
  | CSV => "text/csv"
  | Excel => "application/vnd.openxmlformats-officedocument.spreadsheetml.sheet"
  end.

(** The conversion section. *)
Definition convert (w : widgets) (file_name file_extension : string)
           (df : DataFrame) (s : state) : state :=
  let buf :=
    match conversion_type w with
    | CSV => to_csv df
    | Excel => to_excel df
    end in
  let file_name := output_name file_name file_extension (conversion_type w) in
  let s := State (page s) (dict_set (processed_files s) file_name buf) in
  render (st_download_button buf file_name (mime_type (conversion_type w))) s.

(** [file_extension = os.path.splitext(file.name)[-1].lower()] *)
Definition extension_of (file_name : string) : string :=
  Str.lower (OsPath.splitext file_name).2.

(** What follows a successful read: file information, cleaning,
    visualization, conversion. *)
Definition pipeline (ui : string → widgets) (file : UploadedFile)
           (file_extension : string) (df : DataFrame) (s : state) : state :=
  let w := ui (name file) in
  let s := render (st_subheader (name file)) s in
  let s := render (st_write_size (size file)) s in
  let s := render (st_dataframe (head df)) s in
  let '(df, s) := clean w df s in
  let s := visualize w df s in
  convert w (name file) file_extension df s.

(** The body of [for file in uploaded_files].  [None]: a parser raised,
    and the exception leaves the script (nothing in it is caught).  The
    [else] branch reports the extension and [continue]s. *)
Definition process_file (ui : string → widgets) (file : UploadedFile)
           (s : state) : option state :=
  let file_extension := extension_of (name file) in
  if decide (file_extension = ".csv") then
    df ← read_csv file; Some (pipeline ui file file_extension df s)
  else if decide (file_extension = ".xlsx") then
    df ← read_excel file; Some (pipeline ui file file_extension df s)
  else
    Some (render (st_error_unsupported file_extension) s).

Fixpoint process_files (ui : string → widgets) (uploaded_files : list UploadedFile)
         (s : state) : option state :=
  match uploaded_files with
  | [] => Some s
  | file :: rest => s' ← process_file ui file s; process_files ui rest s'
  end.

(** *** Bulk download *)

(** [zf.writestr(file_name, file_buffer.getvalue())] for every item of
    the dict, in its order: each call appends one entry. *)
Definition zip_write (d : list (string * buffer)) : list (string * buffer) :=
  foldl (λ zf (item : string * buffer), zf ++ [(item.1, item.2)]) [] d.

(** The archive is built and offered behind [if processed_files:]. *)
Definition bundle (s : state) : state :=
  match processed_files s with
  | [] => s
  | d => render (st_download_all (zip_write d) "processed_files.zip") s
  end.

Definition initial : state := State [] [].

(** One run of the script over the uploaded files. *)
Definition main (ui : string → widgets) (uploaded_files : list UploadedFile)
  : option state :=
  s ← process_files ui uploaded_files initial;
  Some (render st_success (bundle s)).

(** The archive offered on a page, if any. *)
Definition archives (s : state) : list (list (string * buffer)) :=
  omap (λ e, match e with st_download_all z _ => Some z | _ => None end) (page s).

(** The individual downloads offered on a page, in order: name and
    content. *)
Definition downloads (s : state) : list (string * buffer) :=
  omap (λ e, match e with
             | st_download_button b n _ => Some (n, b)
             | _ => None
             end) (page s).

End App.

Import App.

(** ** Column-level readings of the handlers

    What the two frame-level assignments amount to on one numeric column;
    the handlers are proved equal to them below. *)

Module ColumnView.

(** [(v - min) / (max - min)] down one column. *)
Definition normalize_col (vs : list Float.t) : list Float.t :=
  (λ v, Float.div (Float.sub v (Float.min vs))
                  (Float.sub (Float.max vs) (Float.min vs))) <$> vs.

(** NaN cells take the column mean. *)
Definition fill_col (vs : list Float.t) : list Float.t :=
  fill_cell (Float.mean vs) <$> vs.

(** Apply [g] to every numeric column, leaving the others alone. *)
Definition map_numeric (g : list Float.t → list Float.t) (df : DataFrame) : DataFrame :=
  (λ nc : string * column,
     (nc.1, match nc.2 with NumCol vs => NumCol (g vs) | c => c end)) <$> df.

(** The numeric columns of a table, in order. *)
Definition numeric_part (df : DataFrame) : NumFrame :=
  omap (λ nc : string * column,
          match nc.2 with NumCol vs => Some (nc.1, vs) | _ => None end) df.

End ColumnView.

Import ColumnView.

(** ** Reference definitions

    Readings of the script's effects used to state the properties below. *)

(** The positions a mask keeps, counted from [s]. *)
Fixpoint positions (m : list bool) (s : nat) : list nat :=
  match m with
  | [] => []
  | b :: m' => if b then s :: positions m' (S s) else positions m' (S s)
  end.

(** The individual download of a file whose table was read as [df]. *)
Definition converted (ui : string → widgets) (file : UploadedFile)
           (df : DataFrame) : string * buffer :=
  let w := ui (name file) in
  let df' := (clean w df initial).1 in
  (output_name (name file) (extension_of (name file)) (conversion_type w),
   match conversion_type w with CSV => to_csv df' | Excel => to_excel df' end).

(** The individual download of an uploaded file, when it has one. *)
Definition individual_download (ui : string → widgets) (file : UploadedFile)
  : option (string * buffer) :=
  if decide (extension_of (name file) = ".csv")
  then converted ui file <$> read_csv file
  else if decide (extension_of (name file) = ".xlsx")
       then converted ui file <$> read_excel file
       else None.

(** The dict left by the assignments [d[k] = v], made in order. *)
Definition dict_of {V} (items : list (string * V)) : list (string * V) :=
  foldl (λ d (item : string * V), dict_set d item.1 item.2) [] items.

(** The name the conversion rule asks for: the stem of [os.path.splitext]
    followed by the extension of the target format. *)
Definition replace_extension (file_name : string) (c : conversion) : string :=
  String.append (OsPath.splitext file_name).1 (target_extension c).

(** The extensions reported as unsupported on a page, in order. *)
Definition errors (s : state) : list string :=
  omap (λ e, match e with st_error_unsupported x => Some x | _ => None end)
       (page s).

(** The labels a figure reads, and the table it is drawn from. *)
Definition fig_axes (fig : figure) : list string :=
  match fig with
  | px_bar _ x y => [x; y]
  | px_histogram _ x => [x]
  | px_pie _ x y => [x; y]
  | px_scatter _ x y => [x; y]
  end.

Definition fig_data (fig : figure) : list (string * column) :=
  match fig with
  | px_bar df _ _ => df
  | px_histogram df _ => df
  | px_pie df _ _ => df
  | px_scatter df _ _ => df
  end.

(** The parser the loop calls on a file returns. *)
Definition readable (file : UploadedFile) : Prop :=
  (extension_of (name file) = ".csv"%string → is_Some (read_csv file)) ∧
  (extension_of (name file) = ".xlsx"%string → is_Some (read_excel file)).

(** The file has one of the two extensions the loop reads. *)
Definition supported (file : UploadedFile) : bool :=
  bool_decide (extension_of (name file) = ".csv"%string) ||
  bool_decide (extension_of (name file) = ".xlsx"%string).

(** Two widget states that differ at most in the chart settings. *)
Definition same_buttons (w w' : widgets) : Prop :=
  btn_remove_duplicates w = btn_remove_duplicates w' ∧
  btn_normalize w = btn_normalize w' ∧
  btn_fill_missing w = btn_fill_missing w' ∧
  conversion_type w = conversion_type w'.

(** What every handler keeps: well-formedness, the labels, which of them
    are numeric, and no more rows than before. *)
Definition shape_kept (df df' : DataFrame) : Prop :=
  wf df' ∧ columns df' = columns df ∧
  columns (select_dtypes_number df') = columns (select_dtypes_number df) ∧
  nrows df' ≤ nrows df.

(** ** Example inputs *)

Definition num (z : Z) : Float.t := Float.of_Z z.

Definition ex_gaps : DataFrame :=
  [("name"%string, ObjCol [Some "a"; Some "b"; None; Some "d"]%string);
   ("v"%string, NumCol [num 1; num 3; Float.nan; num 5])].

Definition ex_dups : DataFrame :=
  [("name"%string, ObjCol [Some "x"; Some "x"; Some "y"]%string);
   ("value"%string, NumCol [num 1; num 1; num 2])].

Definition ui_csv : string → widgets :=
  λ _, Widgets false false false BarChart 0 1 CSV.

Definition ui_normalize : string → widgets :=
  λ _, Widgets false true false BarChart 0 1 CSV.

Definition table_twos : DataFrame :=
  [("v"%string, NumCol [num 2; num 2; num 2])].

Definition table_nans : DataFrame :=
  [("v"%string, NumCol [Float.nan; Float.nan; Float.nan])].

Definition twos_csv : UploadedFile := Upload "twos.csv" 8 (Some table_twos) None.

Definition table_x : DataFrame :=
  [("k"%string, ObjCol [Some "p"; Some "q"]%string);
   ("n"%string, NumCol [num 1; num 2])].

Definition table_y : DataFrame :=
  [("k"%string, ObjCol [Some "r"]%string);
   ("n"%string, NumCol [num 7])].

Definition notes_txt : UploadedFile := Upload "notes.txt" 12 None None.
Definition a_csv : UploadedFile := Upload "a.csv" 20 (Some table_x) None.
Definition a_xlsx : UploadedFile := Upload "a.xlsx" 30 None (Some table_y).
Definition b_csv : UploadedFile := Upload "b.csv" 30 (Some table_y) None.

Definition table_one_numeric : DataFrame :=
  [("k"%string, ObjCol [Some "p"; Some "q"]%string);
   ("n"%string, NumCol [num 1; num 2])].

Definition one_csv : UploadedFile := Upload "one.csv" 16 (Some table_one_numeric) None.

(** ** Label lookup *)

Section Lookup.

Lemma get_col_elem (df : DataFrame) c col :
  NoDup (columns df) → (c, col) ∈ df → get_col df c = Some col.
Proof.
  induction df as [|[n x] df IH]; simpl; intros Hnd Hin.
  - by apply elem_of_nil in Hin.
  - apply NoDup_cons in Hnd as [Hn Hnd].
    apply elem_of_cons in Hin as [Heq|Hin].
    + inversion Heq; subst. by rewrite decide_True.
    + rewrite decide_False; [by apply IH|].
      intros ->. apply Hn. apply list_elem_of_fmap. by exists (c, col).
Qed.

Lemma select_cons_num n vs (l : DataFrame) :
  select_dtypes_number ((n, NumCol vs) :: l) =
  (n, NumCol vs) :: select_dtypes_number l.
Proof. reflexivity. Qed.

Lemma select_cons_obj n vs (l : DataFrame) :
  select_dtypes_number ((n, ObjCol vs) :: l) = select_dtypes_number l.
Proof. reflexivity. Qed.

Lemma getitem_cons (df : DataFrame) c cols :
  getitem df (c :: cols) =
  match get_col df c with
  | Some (NumCol vs) => (c, vs) :: getitem df cols
  | _ => getitem df cols
  end.
Proof. unfold getitem. simpl. by destruct (get_col df c) as [[?|?]|]. Qed.

Lemma numeric_part_cons n c (l : DataFrame) :
  numeric_part ((n, c) :: l) =
  match c with
  | NumCol vs => (n, vs) :: numeric_part l
  | ObjCol _ => numeric_part l
  end.
Proof. by destruct c. Qed.

Lemma getitem_numeric_part_gen (df l : DataFrame) :
  (∀ nc, nc ∈ l → get_col df nc.1 = Some nc.2) →
  getitem df (columns (select_dtypes_number l)) = numeric_part l.
Proof.
  induction l as [|[n c] l IH]; intros H; [done|].
  assert (Hl : ∀ nc, nc ∈ l → get_col df nc.1 = Some nc.2)
    by (intros nc Hnc; apply H; by right).
  specialize (IH Hl).
  assert (Hn : get_col df n = Some c) by (apply (H (n, c)); by left).
  rewrite numeric_part_cons. destruct c as [vs|vs].
  - rewrite select_cons_num. unfold columns at 1. rewrite fmap_cons.
    rewrite getitem_cons. simpl. rewrite Hn. by rewrite <- IH.
  - rewrite select_cons_obj. apply IH.
Qed.

Lemma getitem_numeric_part (df : DataFrame) :
  NoDup (columns df) →
  getitem df (columns (select_dtypes_number df)) = numeric_part df.
Proof.
  intros Hnd. apply getitem_numeric_part_gen.
  intros [n c] Hin. by apply get_col_elem.
Qed.

Lemma numeric_part_labels (df : DataFrame) :
  (numeric_part df).*1 = columns (select_dtypes_number df).
Proof.
  induction df as [|[n c] df IH]; [done|].
  rewrite numeric_part_cons. destruct c.
  - rewrite select_cons_num. unfold columns in *.
    rewrite !fmap_cons. by rewrite IH.
  - rewrite select_cons_obj. apply IH.
Qed.

Lemma numeric_part_elem (df : DataFrame) c vs :
  (c, vs) ∈ numeric_part df ↔ (c, NumCol vs) ∈ df.
Proof.
  unfold numeric_part. rewrite list_elem_of_omap. split.
  - intros [[n col] [Hin Heq]]. destruct col; simpl in Heq; [|done].
    by inversion Heq; subst.
  - intros Hin. by exists (c, NumCol vs).
Qed.

Lemma select_labels_sublist (df : DataFrame) :
  columns (select_dtypes_number df) `sublist_of` columns df.
Proof. apply fmap_sublist, sublist_filter. Qed.

Lemma numeric_labels_NoDup (df : DataFrame) :
  NoDup (columns df) → NoDup (numeric_part df).*1.
Proof.
  intros Hnd. rewrite numeric_part_labels.
  eapply sublist_NoDup; [done|apply select_labels_sublist].
Qed.

Lemma series_get_reduce f (nf : NumFrame) c vs :
  NoDup nf.*1 → (c, vs) ∈ nf → series_get (frame_reduce f nf) c = f vs.
Proof.
  induction nf as [|[n x] nf IH]; simpl; intros Hnd Hin.
  - by apply elem_of_nil in Hin.
  - apply NoDup_cons in Hnd as [Hn Hnd].
    apply elem_of_cons in Hin as [Heq|Hin].
    + inversion Heq; subst. by rewrite decide_True.
    + rewrite decide_False; [by apply IH|].
      intros ->. apply Hn. apply list_elem_of_fmap. by exists (c, vs).
Qed.

Lemma series_get_sub (a b : Series) c :
  series_get (series_sub a b) c =
  Float.sub (series_get a c) (series_get b c).
Proof.
  induction a as [|[n v] a IH]; simpl; [done|].
  destruct (decide (n = c)) as [->|]; [done|apply IH].
Qed.

End Lookup.

(** ** The frame-level assignments, column by column *)

Section Assignment.

Lemma fmap_ext_elem {A B} (f g : A → B) (l : list A) :
  (∀ x, x ∈ l → f x = g x) → f <$> l = g <$> l.
Proof.
  intros H. apply list_eq. intros i. rewrite !list_lookup_fmap.
  destruct (l !! i) as [x|] eqn:Hi; [|done]. simpl.
  f_equal. apply H. by eapply list_elem_of_lookup_2.
Qed.

Lemma zip_fmap_same {A B C} (f : A → B) (g : A → C) (l : list A) :
  zip (f <$> l) (g <$> l) = (λ x, (f x, g x)) <$> l.
Proof. induction l as [|x l IH]; [done|]. rewrite !fmap_cons. simpl. by f_equal. Qed.

Lemma foldl_fmap_list {A B C} (f : A → B → A) (g : C → B) (a : A) (l : list C) :
  foldl f a (g <$> l) = foldl (λ acc x, f acc (g x)) a l.
Proof. revert a. induction l as [|x l IH]; intros a; [done|]. apply IH. Qed.

Lemma label_functional (df : DataFrame) c x y :
  NoDup (columns df) → (c, x) ∈ df → (c, y) ∈ df → x = y.
Proof.
  intros Hnd Hx Hy.
  pose proof (get_col_elem df c x Hnd Hx) as H1.
  pose proof (get_col_elem df c y Hnd Hy) as H2.
  congruence.
Qed.

Lemma setitem_col_present (df : DataFrame) c col :
  c ∈ columns df →
  setitem_col df c col =
  (λ nc : string * column, if decide (nc.1 = c) then (nc.1, col) else nc) <$> df.
Proof. intros H. unfold setitem_col. by rewrite decide_True. Qed.

Lemma columns_relabel (f : string * column → column) (df : DataFrame) :
  columns ((λ nc, (nc.1, f nc)) <$> df) = columns df.
Proof.
  unfold columns. rewrite <- list_fmap_compose. by apply fmap_ext_elem.
Qed.

Lemma setitem_col_columns (df : DataFrame) c col :
  c ∈ columns df → columns (setitem_col df c col) = columns df.
Proof.
  intros H. rewrite setitem_col_present by done.
  unfold columns. rewrite <- list_fmap_compose. apply fmap_ext_elem.
  intros [n x] _. simpl. by case_decide.
Qed.

Variable g : list Float.t → list Float.t.

(** One assignment per label of [L], each replacing the column in place. *)
Let step (d : DataFrame) (cv : string * list Float.t) : DataFrame :=
  setitem_col d cv.1 (NumCol (g cv.2)).

Let upd (L : NumFrame) (nc : string * column) : string * column :=
  (nc.1, if decide (nc.1 ∈ L.*1)
         then match nc.2 with NumCol vs => NumCol (g vs) | c => c end
         else nc.2).

Lemma foldl_setitem (L : NumFrame) : ∀ d : DataFrame,
  NoDup (columns d) → NoDup L.*1 →
  (∀ c vs, (c, vs) ∈ L → (c, NumCol vs) ∈ d) →
  foldl step d L = upd L <$> d.
Proof.
  induction L as [|[c vs] L IH]; intros d Hd HL Hin.
  - simpl. rewrite <- (list_fmap_id d) at 1. apply fmap_ext_elem.
    intros [n x] _. unfold upd. by simpl.
  - simpl in *. apply NoDup_cons in HL as [HcL HL].
    assert (Hc : (c, NumCol vs) ∈ d) by (apply Hin; by left).
    assert (Hcd : c ∈ columns d).
    { apply list_elem_of_fmap. by exists (c, NumCol vs). }
    unfold step at 2. simpl.
    rewrite IH.
    + rewrite setitem_col_present by done.
      rewrite <- list_fmap_compose. apply fmap_ext_elem.
      intros [n x] Hn. unfold upd. simpl.
      destruct (decide (n = c)) as [->|Hne]; simpl.
      * rewrite decide_False by done.
        rewrite decide_True by (by left).
        by rewrite (label_functional d c x (NumCol vs)).
      * destruct (decide (n ∈ L.*1)) as [HnL|HnL].
        -- by rewrite decide_True by (by right).
        -- rewrite decide_False; [done|].
           intros [?|?]%elem_of_cons; done.
    + by rewrite setitem_col_columns.
    + done.
    + intros c' vs' Hin'.
      rewrite setitem_col_present by done.
      apply list_elem_of_fmap. exists (c', NumCol vs'). split.
      * simpl. rewrite decide_False; [done|].
        intros ->. apply HcL. apply list_elem_of_fmap. by exists (c, vs').
      * apply Hin. by right.
Qed.

Lemma setitem_numeric (df : DataFrame) :
  NoDup (columns df) →
  setitem df (columns (select_dtypes_number df))
    ((λ cv : string * list Float.t, (cv.1, g cv.2)) <$> numeric_part df)
  = map_numeric g df.
Proof.
  intros Hnd. unfold setitem.
  rewrite <- numeric_part_labels. rewrite zip_fmap_same.
  rewrite foldl_fmap_list.
  change (foldl step df (numeric_part df) = map_numeric g df).
  rewrite foldl_setitem.
  - apply fmap_ext_elem. intros [n x] Hn. unfold upd. simpl.
    destruct x as [vs|vs].
    + rewrite decide_True; [done|].
      apply list_elem_of_fmap. exists (n, vs). split; [done|].
      by apply numeric_part_elem.
    + by case_decide.
  - done.
  - by apply numeric_labels_NoDup.
  - intros c vs. by apply numeric_part_elem.
Qed.

End Assignment.

Section Handlers.

Lemma normalized_frame (nf : NumFrame) :
  NoDup nf.*1 →
  frame_div (frame_sub nf (frame_min nf))
            (series_sub (frame_max nf) (frame_min nf))
  = (λ cv : string * list Float.t, (cv.1, normalize_col cv.2)) <$> nf.
Proof.
  intros Hnd. unfold frame_div, frame_sub, frame_op.
  rewrite <- list_fmap_compose. apply fmap_ext_elem.
  intros [c vs] Hin. simpl. f_equal.
  rewrite series_get_sub.
  unfold frame_min, frame_max.
  rewrite !(series_get_reduce _ nf c vs) by done.
  unfold normalize_col. by rewrite <- list_fmap_compose.
Qed.

Lemma filled_frame (nf : NumFrame) :
  NoDup nf.*1 →
  fillna nf (frame_mean nf)
  = (λ cv : string * list Float.t, (cv.1, fill_col cv.2)) <$> nf.
Proof.
  intros Hnd. unfold fillna. apply fmap_ext_elem.
  intros [c vs] Hin. simpl. f_equal.
  unfold frame_mean. by rewrite (series_get_reduce _ nf c vs).
Qed.

(** [normalize] rescales every numeric column by its own minimum and
    maximum and leaves the other columns alone. *)
Lemma normalize_by_column (df : DataFrame) :
  NoDup (columns df) → normalize df = map_numeric normalize_col df.
Proof.
  intros Hnd. unfold normalize.
  rewrite getitem_numeric_part by done.
  rewrite normalized_frame by (by apply numeric_labels_NoDup).
  by apply setitem_numeric.
Qed.

Lemma fill_missing_by_column (df : DataFrame) :
  NoDup (columns df) → fill_missing df = map_numeric fill_col df.
Proof.
  intros Hnd. unfold fill_missing.
  rewrite getitem_numeric_part by done.
  rewrite filled_frame by (by apply numeric_labels_NoDup).
  by apply setitem_numeric.
Qed.

End Handlers.

(** ** Arithmetic of one column *)

Section ColumnArithmetic.

Local Open Scope Qc_scope.

Lemma Qc_eq_bool_false (x y : Qc) : x ≠ y → Qc_eq_bool x y = false.
Proof. intros H. unfold Qc_eq_bool. by destruct (Qcanon.Qc_eq_dec x y). Qed.

Lemma Qc_eq_bool_true (x : Qc) : Qc_eq_bool x x = true.
Proof. unfold Qc_eq_bool. by destruct (Qcanon.Qc_eq_dec x x). Qed.

Lemma present_elem (vs : list Float.t) (x : Qc) :
  x ∈ Float.present vs ↔ Some x ∈ vs.
Proof.
  unfold Float.present. rewrite list_elem_of_omap. split.
  - intros [o [Ho Hx]]. simpl in Hx. by subst.
  - intros H. by exists (Some x).
Qed.

(** The reduction skips NaN cells: it folds the operation over the
    present values, starting from the first one. *)
Lemma reduce_from op (vs : list Float.t) (acc : Float.t) :
  foldl (λ acc v,
           match v, acc with
           | None, _ => acc
           | Some x, None => Some x
           | Some x, Some m => Some (op m x)
           end) acc vs
  = match acc, Float.present vs with
    | None, [] => None
    | None, x :: xs => Some (foldl op x xs)
    | Some m, xs => Some (foldl op m xs)
    end.
Proof.
  revert acc. induction vs as [|[x|] vs IH]; intros acc.
  - by destruct acc.
  - simpl. rewrite IH. by destruct acc.
  - simpl. rewrite IH. by destruct acc.
Qed.

Lemma reduce_present op (vs : list Float.t) :
  Float.reduce op vs =
  match Float.present vs with
  | [] => None
  | x :: xs => Some (foldl op x xs)
  end.
Proof. unfold Float.reduce. by rewrite reduce_from. Qed.

Lemma foldl_min2 (xs : list Qc) : ∀ m,
  (foldl Float.min2 m xs = m ∨ foldl Float.min2 m xs ∈ xs) ∧
  foldl Float.min2 m xs ≤ m ∧
  (∀ x, x ∈ xs → foldl Float.min2 m xs ≤ x).
Proof.
  induction xs as [|y xs IH]; intros m; simpl.
  - split; [by left|]. split; [apply Qcle_refl|].
    intros x Hx. by apply elem_of_nil in Hx.
  - destruct (IH (Float.min2 m y)) as (Hmem & Hle & Hall).
    assert (Hm : Float.min2 m y ≤ m ∧ Float.min2 m y ≤ y ∧
                 (Float.min2 m y = m ∨ Float.min2 m y = y)).
    { unfold Float.min2. destruct (Qclt_le_dec y m) as [Hlt|Hge].
      - split; [by apply Qclt_le_weak|]. split; [apply Qcle_refl|by right].
      - split; [apply Qcle_refl|]. split; [done|by left]. }
    destruct Hm as (Hm1 & Hm2 & Hm3).
    split; [|split].
    + destruct Hmem as [->|Hin]; [|right; by right].
      destruct Hm3 as [->| ->]; [by left|right; by left].
    + by eapply Qcle_trans.
    + intros x [->|Hx]%elem_of_cons; [by eapply Qcle_trans|by apply Hall].
Qed.

Lemma foldl_max2 (xs : list Qc) : ∀ m,
  (foldl Float.max2 m xs = m ∨ foldl Float.max2 m xs ∈ xs) ∧
  m ≤ foldl Float.max2 m xs ∧
  (∀ x, x ∈ xs → x ≤ foldl Float.max2 m xs).
Proof.
  induction xs as [|y xs IH]; intros m; simpl.
  - split; [by left|]. split; [apply Qcle_refl|].
    intros x Hx. by apply elem_of_nil in Hx.
  - destruct (IH (Float.max2 m y)) as (Hmem & Hle & Hall).
    assert (Hm : m ≤ Float.max2 m y ∧ y ≤ Float.max2 m y ∧
                 (Float.max2 m y = m ∨ Float.max2 m y = y)).
    { unfold Float.max2. destruct (Qclt_le_dec m y) as [Hlt|Hge].
      - split; [by apply Qclt_le_weak|]. split; [apply Qcle_refl|by right].
      - split; [apply Qcle_refl|]. split; [done|by left]. }
    destruct Hm as (Hm1 & Hm2 & Hm3).
    split; [|split].
    + destruct Hmem as [->|Hin]; [|right; by right].
      destruct Hm3 as [->| ->]; [by left|right; by left].
    + by eapply Qcle_trans.
    + intros x [->|Hx]%elem_of_cons; [by eapply Qcle_trans|by apply Hall].
Qed.

(** The minimum is a present value below every present value. *)
Lemma min_spec (vs : list Float.t) (lo : Qc) :
  Float.min vs = Some lo →
  Some lo ∈ vs ∧ ∀ x, Some x ∈ vs → lo ≤ x.
Proof.
  unfold Float.min. rewrite reduce_present.
  destruct (Float.present vs) as [|y ys] eqn:Hp; [done|].
  intros [= <-]. destruct (foldl_min2 ys y) as (Hmem & Hle & Hall).
  split.
  - apply present_elem. rewrite Hp.
    destruct Hmem as [->|Hin]; [by left|by right].
  - intros x Hx. apply present_elem in Hx. rewrite Hp in Hx.
    apply elem_of_cons in Hx as [->|Hx]; [done|by apply Hall].
Qed.

Lemma max_spec (vs : list Float.t) (hi : Qc) :
  Float.max vs = Some hi →
  Some hi ∈ vs ∧ ∀ x, Some x ∈ vs → x ≤ hi.
Proof.
  unfold Float.max. rewrite reduce_present.
  destruct (Float.present vs) as [|y ys] eqn:Hp; [done|].
  intros [= <-]. destruct (foldl_max2 ys y) as (Hmem & Hle & Hall).
  split.
  - apply present_elem. rewrite Hp.
    destruct Hmem as [->|Hin]; [by left|by right].
  - intros x Hx. apply present_elem in Hx. rewrite Hp in Hx.
    apply elem_of_cons in Hx as [->|Hx]; [done|by apply Hall].
Qed.

(** Both reductions are NaN exactly on a column without present value. *)
Lemma min_max_none (vs : list Float.t) :
  Float.min vs = None ↔ Float.max vs = None.
Proof.
  unfold Float.min, Float.max. rewrite !reduce_present.
  by destruct (Float.present vs).
Qed.

Lemma scale_bounds (lo hi v : Qc) :
  lo ≤ v → v ≤ hi → lo < hi →
  Q2Qc 0 ≤ (v - lo) / (hi - lo) ∧ (v - lo) / (hi - lo) ≤ 1.
Proof.
  intros Hlo Hhi Hlt.
  assert (Hd : Q2Qc 0 < hi - lo) by (by apply Qclt_minus_iff in Hlt).
  assert (Hne : hi - lo ≠ Q2Qc 0).
  { intros Heq. rewrite Heq in Hd. apply Qclt_not_le in Hd. apply Hd, Qcle_refl. }
  assert (Hmul : (v - lo) / (hi - lo) * (hi - lo) = v - lo)
    by (by apply test_field).
  split; apply (Qcmult_lt_0_le_reg_r _ _ (hi - lo) Hd); rewrite Hmul.
  - rewrite Qcmult_0_l. by apply Qcle_minus_iff in Hlo.
  - rewrite Qcmult_1_l. by apply Qcplus_le_mono_r.
Qed.

Lemma scale_min (lo hi : Qc) : (lo - lo) / (hi - lo) = Q2Qc 0.
Proof. unfold Qcdiv. ring. Qed.

Lemma scale_max (lo hi : Qc) : lo ≠ hi → (hi - lo) / (hi - lo) = 1.
Proof.
  intros Hne. field. intros Heq. apply Hne.
  replace hi with ((hi - lo) + lo) by ring. rewrite Heq. ring.
Qed.

(** When the range of a column is zero, every numerator [v - min] that
    [normalize] forms is zero as well: the division by zero it performs is
    always [0 / 0]. *)
Lemma scale_zero_range_numerator (vs : list Float.t) (lo v : Qc) :
  Float.min vs = Some lo → Float.max vs = Some lo → Some v ∈ vs →
  v - lo = Q2Qc 0.
Proof.
  intros Hmin Hmax Hv.
  apply min_spec in Hmin as [_ Hmin]. apply max_spec in Hmax as [_ Hmax].
  assert (v = lo) as -> by (apply Qcle_antisym; auto).
  ring.
Qed.

End ColumnArithmetic.

(** ** Shape of a table under a per-column map *)

Section Shape.

Variable g : list Float.t → list Float.t.
Hypothesis g_length : ∀ vs, length (g vs) = length vs.

Lemma map_numeric_columns (df : DataFrame) :
  columns (map_numeric g df) = columns df.
Proof. apply (columns_relabel (λ nc, match nc.2 with NumCol vs => NumCol (g vs) | c => c end)). Qed.

Lemma map_numeric_nrows (df : DataFrame) :
  nrows (map_numeric g df) = nrows df.
Proof using g_length. destruct df as [|[n [vs|vs]] df]; simpl; auto. Qed.

Lemma map_numeric_wf (df : DataFrame) : wf df → wf (map_numeric g df).
Proof using g_length.
  intros [Hnd Hlen]. split.
  - by rewrite map_numeric_columns.
  - rewrite map_numeric_nrows. unfold map_numeric.
    apply Forall_fmap. eapply Forall_impl; [exact Hlen|].
    intros [n [vs|vs]] H; simpl in *; [by rewrite g_length|done].
Qed.

Lemma map_numeric_get_num (df : DataFrame) c vs :
  NoDup (columns df) → (c, NumCol vs) ∈ df →
  get_col (map_numeric g df) c = Some (NumCol (g vs)).
Proof.
  intros Hnd Hin. apply get_col_elem.
  - by rewrite map_numeric_columns.
  - apply list_elem_of_fmap. by exists (c, NumCol vs).
Qed.

Lemma map_numeric_get_obj (df : DataFrame) c vs :
  NoDup (columns df) → (c, ObjCol vs) ∈ df →
  get_col (map_numeric g df) c = Some (ObjCol vs).
Proof.
  intros Hnd Hin. apply get_col_elem.
  - by rewrite map_numeric_columns.
  - apply list_elem_of_fmap. by exists (c, ObjCol vs).
Qed.

End Shape.

Lemma normalize_col_length vs : length (normalize_col vs) = length vs.
Proof. unfold normalize_col. by rewrite length_fmap. Qed.

Lemma fill_col_length vs : length (fill_col vs) = length vs.
Proof. unfold fill_col. by rewrite length_fmap. Qed.

Ltac solve_wf :=
  split; [ apply (bool_decide_unpack _); vm_compute; reflexivity
         | repeat constructor ].

(** Equality of closed tables: rationals are compared by value. *)
Ltac table_eq :=
  repeat first [ reflexivity | apply Qc_is_canon; reflexivity | f_equal ].

Ltac elem_now := apply (bool_decide_unpack _); vm_compute; reflexivity.

(** ** Normalization *)

Section Normalize.

Local Open Scope Qc_scope.

(** C1 (evaluation at the failing input).  On the column [v = [2, 2, 2]],
    whose range is zero, [normalize] raises nothing and stores NaN in
    every cell: [0 / 0] for each of them.  With the button pressed the page
    reports a successful normalization and the NaN table is what gets
    converted. *)
Theorem normalize_zero_range_is_nan :
  normalize table_twos = table_nans ∧
  process_file ui_normalize twos_csv initial
  = Some (State [st_subheader "twos.csv"; st_write_size 8;
                 st_dataframe table_twos;
                 st_write NumericColumnsNormalized;
                 st_download_button (to_csv table_nans) "twos.csv" "text/csv"]
                [("twos.csv", to_csv table_nans)])%string.
Proof. split; reflexivity. Qed.

(** The same for every zero-range column: each present cell becomes NaN. *)
Lemma normalize_col_zero_range (vs : list Float.t) (lo : Qc) :
  Float.min vs = Some lo → Float.max vs = Some lo →
  normalize_col vs = (λ _, Float.nan) <$> vs.
Proof.
  intros Hmin Hmax. unfold normalize_col. rewrite Hmin, Hmax.
  apply fmap_ext_elem. intros [v|] Hv; [|done]. simpl.
  replace (lo - lo) with (Q2Qc 0) by ring.
  by rewrite Qc_eq_bool_true.
Qed.


End Normalize.

Section NormalizeWitness.

Local Open Scope Qc_scope.


End NormalizeWitness.

(** ** Filling missing values *)

Section FillMissing.

Local Open Scope Qc_scope.

(** The spec's scenario: [v = [1, 3, NaN, 5]] becomes [[1, 3, 3, 5]]. *)
Example fill_missing_scenario :
  fill_missing [("v"%string, NumCol [num 1; num 3; Float.nan; num 5])]
  = [("v"%string, NumCol [num 1; num 3; num 3; num 5])].
Proof. vm_compute. table_eq. Qed.

(** C3.  In a well-formed table, [fill_missing] replaces every numeric
    column by a column of the same length in which present cells are
    unchanged and every missing cell holds the mean of the column: the
    sum of the values present before the call over their number (no
    value when none is present). *)
Theorem fill_missing_mean (df : DataFrame) c (vs : list Float.t) :
  wf df → (c, NumCol vs) ∈ df →
  ∃ vs' : list Float.t,
    get_col (fill_missing df) c = Some (NumCol vs') ∧
    length vs' = length vs ∧
    (∀ i v, vs !! i = Some (Some v) → vs' !! i = Some (Some v)) ∧
    (∀ i, vs !! i = Some None → vs' !! i = Some (Float.mean vs)) ∧
    (∀ x xs, Float.present vs = x :: xs →
             Float.mean vs =
             Some (foldr Qcplus (Q2Qc 0) (x :: xs)
                   / Q2Qc (inject_Z (Z.of_nat (length (x :: xs))))) ∧
             ∀ i, vs' !! i ≠ Some None).
Proof.
  intros [Hnd _] Hin. exists (fill_col vs). repeat split.
  - rewrite fill_missing_by_column by done. by apply map_numeric_get_num.
  - apply fill_col_length.
  - intros i v Hi. unfold fill_col. by rewrite list_lookup_fmap, Hi.
  - intros i Hi. unfold fill_col. by rewrite list_lookup_fmap, Hi.
  - unfold Float.mean. by rewrite H.
  - intros i. unfold fill_col, Float.mean. rewrite H, list_lookup_fmap.
    by destruct (vs !! i) as [[v|]|].
Qed.

Lemma fill_missing_mean_witness :
  ∃ vs' : list Float.t,
    get_col (fill_missing ex_gaps) "v" = Some (NumCol vs') ∧
    vs' !! 2%nat = Some (Float.mean [num 1; num 3; Float.nan; num 5]) ∧
    vs' !! 1%nat = Some (num 3).
Proof.
  destruct (fill_missing_mean ex_gaps "v" [num 1; num 3; Float.nan; num 5])
    as (vs' & Hget & _ & Hkeep & Hfill & _).
  - solve_wf.
  - elem_now.
  - exists vs'. split; [exact Hget|]. split; [by apply Hfill|by apply Hkeep].
Defined.

End FillMissing.

(** ** Boolean indexing *)

Section Mask.

Context {A : Type}.
Implicit Types (m : list bool) (l : list A).

Lemma mask_filter_nil_r m : mask_filter m (@nil A) = [].
Proof. by destruct m. Qed.

Lemma mask_filter_fmap {B} (f : A → B) m l :
  mask_filter m (f <$> l) = f <$> mask_filter m l.
Proof.
  revert l. induction m as [|b m IH]; intros [|x l]; try done.
  simpl. destruct b; simpl; by rewrite IH.
Qed.

Lemma mask_filter_length_eq {B} m l (l' : list B) :
  length l = length l' →
  length (mask_filter m l) = length (mask_filter m l').
Proof.
  revert l l'. induction m as [|b m IH]; intros [|x l] [|y l'] H; try done.
  simpl in *. destruct b; simpl; auto.
Qed.

Lemma positions_elem m : ∀ s i,
  i ∈ positions m s ↔ s ≤ i ∧ m !! (i - s) = Some true.
Proof.
  induction m as [|b m IH]; intros s i; simpl.
  - split; [by intros ?%elem_of_nil|by intros [_ ?]].
  - assert (Hstep : i ∈ positions m (S s) ↔
                    s < i ∧ (b :: m) !! (i - s) = Some true).
    { rewrite IH. split.
      - intros [Hle Hm]. split; [lia|].
        replace (i - s) with (S (i - S s)) by lia. done.
      - intros [Hlt Hm]. split; [lia|].
        replace (i - s) with (S (i - S s)) in Hm by lia. done. }
    destruct b.
    + rewrite elem_of_cons, Hstep. split.
      * intros [->|[Hlt Hm]]; [|split; [lia|done]].
        split; [lia|]. by replace (s - s) with 0 by lia.
      * intros [Hle Hm]. destruct (decide (i = s)) as [->|]; [by left|].
        right. split; [lia|done].
    + rewrite Hstep. split.
      * intros [Hlt Hm]. split; [lia|done].
      * intros [Hle Hm]. split; [|done].
        destruct (decide (i = s)) as [->|]; [|lia].
        by replace (s - s) with 0 in Hm by lia.
Qed.

Lemma positions_sorted m : ∀ s, StronglySorted lt (positions m s).
Proof.
  induction m as [|b m IH]; intros s; simpl; [constructor|].
  destruct b; [|apply IH]. constructor; [apply IH|].
  apply Forall_forall. intros i [Hi _]%positions_elem. lia.
Qed.

(** The kept elements are the elements at the kept positions, in order. *)
Lemma positions_mask m : ∀ (pre l : list A),
  length m = length l →
  Forall2 (λ i x, (pre ++ l) !! i = Some x)
          (positions m (length pre)) (mask_filter m l).
Proof.
  induction m as [|b m IH]; intros pre [|x l] Hlen; simpl in *;
    try done; try constructor.
  assert (Hrec : Forall2 (λ i y, (pre ++ x :: l) !! i = Some y)
            (positions m (S (length pre))) (mask_filter m l)).
  { specialize (IH (pre ++ [x]) l).
    rewrite length_app in IH. simpl in IH.
    replace (length pre + 1) with (S (length pre)) in IH by lia.
    rewrite <- app_assoc in IH. apply IH. lia. }
  destruct b; [|done]. constructor; [|done].
  by rewrite list_lookup_middle.
Qed.

End Mask.

(** ** Rows of a filtered table *)

Section Rows.

Lemma mask_filter_zip_cons (m : list bool) : ∀ (a : row) (b : list row),
  mask_filter m (zip_with cons a b) =
  zip_with cons (mask_filter m a) (mask_filter m b).
Proof.
  induction m as [|x m IH]; intros [|c a] [|r b]; try done.
  - rewrite mask_filter_nil_r, !zip_with_nil_r. apply mask_filter_nil_r.
  - simpl. destruct x; simpl; by rewrite IH.
Qed.

Lemma cells_col_mask m c : cells (col_mask m c) = mask_filter m (cells c).
Proof. destruct c; simpl; by rewrite mask_filter_fmap. Qed.

Lemma col_len_cells c : col_len c = length (cells c).
Proof. destruct c; simpl; by rewrite length_fmap. Qed.

Lemma mask_filter_replicate (m : list bool) : ∀ n (x : row),
  mask_filter m (replicate n x) =
  replicate (length (mask_filter m (replicate n x))) x.
Proof.
  induction m as [|b m IH]; intros [|n] x; simpl; try done.
  destruct b; simpl; by rewrite <- IH.
Qed.

Lemma rows_from_base (m : list bool) (df : DataFrame) (base : list row) :
  foldr (λ (nc : string * column) acc, zip_with cons (cells nc.2) acc)
        (mask_filter m base) (bool_index df m)
  = mask_filter m
      (foldr (λ (nc : string * column) acc, zip_with cons (cells nc.2) acc)
             base df).
Proof.
  induction df as [|[n c] df IH]; simpl; [done|].
  rewrite mask_filter_zip_cons, cells_col_mask. f_equal. apply IH.
Qed.

(** Boolean indexing of a table filters its rows. *)
Lemma rows_bool_index (df : DataFrame) (m : list bool) :
  rows (bool_index df m) = mask_filter m (rows df).
Proof.
  unfold rows. rewrite <- rows_from_base. f_equal.
  destruct df as [|[n c] df]; simpl.
  - by rewrite mask_filter_nil_r.
  - rewrite mask_filter_replicate. f_equal.
    rewrite !col_len_cells, cells_col_mask.
    apply mask_filter_length_eq. by rewrite length_replicate.
Qed.

Lemma rows_from_length (df : DataFrame) (base : list row) :
Forall (λ nc : string * column, col_len nc.2 = length base) df →
length (foldr (λ (nc : string * column) acc, zip_with cons (cells nc.2) acc)
              base df)
= length base.
Proof.
induction 1 as [|[n c] l Hc Hl IH]; simpl; [done|].
rewrite length_zip_with, IH, <- col_len_cells. simpl in Hc. lia.
Qed.

(** A well-formed table has one row per index position. *)
Lemma rows_length (df : DataFrame) : wf df → length (rows df) = nrows df.
Proof.
intros [_ Hlen]. unfold rows.
rewrite rows_from_length; by rewrite length_replicate.
Qed.

End Rows.

(** ** Removing duplicates *)

Section Duplicates.

Lemma duplicated_from_length (rs : list row) : ∀ seen,
  length (duplicated_from seen rs) = length rs.
Proof. induction rs as [|r rs IH]; intros seen; simpl; auto. Qed.

(** The flag of row [i]: it was seen before the scan started, or it occurs
    among the rows above it. *)
Lemma duplicated_from_lookup (rs : list row) : ∀ seen i,
  duplicated_from seen rs !! i =
  (λ r, bool_decide (r ∈ seen ∨ r ∈ take i rs)) <$> rs !! i.
Proof.
  induction rs as [|r0 rs IH]; intros seen i; [done|].
  destruct i as [|i]; simpl.
  - f_equal. apply bool_decide_ext. rewrite elem_of_nil. tauto.
  - rewrite IH. destruct (rs !! i) as [r|]; [|done]. simpl.
    f_equal. apply bool_decide_ext. rewrite !elem_of_cons. tauto.
Qed.

Lemma not_in_take (rs : list row) (r : row) i :
  r ∉ take i rs ↔ ∀ j, j < i → rs !! j ≠ Some r.
Proof.
  split.
  - intros Hnot j Hj Hlook. apply Hnot.
    apply list_elem_of_lookup. exists j. rewrite lookup_take_lt; done.
  - intros Hall [j Hj]%list_elem_of_lookup.
    destruct (decide (j < i)) as [Hlt|Hge].
    + rewrite lookup_take_lt in Hj by done. by apply (Hall j).
    + rewrite lookup_take_ge in Hj by lia. done.
Qed.

(** The rows kept by [~duplicated]: those no row above equals. *)
Lemma kept_positions (rs : list row) i :
  i ∈ positions (negb <$> duplicated_from [] rs) 0 ↔
  i < length rs ∧ ∀ j, j < i → rs !! j ≠ rs !! i.
Proof.
  rewrite positions_elem. replace (i - 0) with i by lia.
  rewrite list_lookup_fmap, duplicated_from_lookup.
  destruct (rs !! i) as [r|] eqn:Hi; simpl.
  - apply lookup_lt_Some in Hi as Hlt. split.
    + intros [_ [= Hb]]. split; [done|].
      apply negb_true_iff, bool_decide_eq_false in Hb.
      apply not_in_take. intros Hin. apply Hb. by right.
    + intros [_ Hall]. split; [lia|]. f_equal.
      apply negb_true_iff, bool_decide_eq_false.
      intros [Hin|Hin]; [by apply elem_of_nil in Hin|].
      revert Hin. by apply not_in_take.
  - apply lookup_ge_None in Hi. split; [by intros [_ ?]|]. intros [? _]. lia.
Qed.

(** The spec's scenario: of the rows [("x",1), ("x",1), ("y",2)] the
    first and the third remain. *)
Example remove_duplicates_scenario :
  remove_duplicates ex_dups =
  [("name"%string, ObjCol [Some "x"; Some "y"]%string);
   ("value"%string, NumCol [num 1; num 2])].
Proof. reflexivity. Qed.

(** C4.  The rows of the deduplicated table are the rows of the original
    table at the positions [kept], taken in increasing order, where a
    position is kept exactly when no row above it is cell-for-cell equal
    to its row.  The column labels are unchanged. *)
Theorem remove_duplicates_keeps_first (df : DataFrame) :
  wf df →
  columns (remove_duplicates df) = columns df ∧
  ∃ kept : list nat,
    StronglySorted lt kept ∧
    (∀ i, i ∈ kept ↔
          i < length (rows df) ∧ ∀ j, j < i → rows df !! j ≠ rows df !! i) ∧
    Forall2 (λ i r, rows df !! i = Some r) kept (rows (remove_duplicates df)).
Proof.
  intros _. split.
  - apply (columns_relabel (λ nc, col_mask (negb <$> duplicated df) nc.2)).
  - exists (positions (negb <$> duplicated df) 0). split; [|split].
    + apply positions_sorted.
    + intros i. apply kept_positions.
    + unfold remove_duplicates, drop_duplicates. rewrite rows_bool_index.
      apply (positions_mask _ []).
      unfold duplicated. by rewrite length_fmap, duplicated_from_length.
Qed.

Lemma remove_duplicates_keeps_first_witness :
  columns (remove_duplicates ex_dups) = columns ex_dups ∧
  ∃ kept : list nat,
    StronglySorted lt kept ∧
    (∀ i, i ∈ kept ↔
          i < length (rows ex_dups) ∧
          ∀ j, j < i → rows ex_dups !! j ≠ rows ex_dups !! i) ∧
    Forall2 (λ i r, rows ex_dups !! i = Some r) kept
            (rows (remove_duplicates ex_dups)).
Proof. apply (remove_duplicates_keeps_first ex_dups). solve_wf. Defined.

End Duplicates.

(** ** Shape preservation *)

Section ShapePreserved.

Lemma col_mask_len m c c' :
  col_len c = col_len c' → col_len (col_mask m c) = col_len (col_mask m c').
Proof.
  rewrite !col_len_cells, !cells_col_mask. apply mask_filter_length_eq.
Qed.

Lemma bool_index_columns (df : DataFrame) m :
  columns (bool_index df m) = columns df.
Proof. apply (columns_relabel (λ nc, col_mask m nc.2)). Qed.

Lemma bool_index_wf (df : DataFrame) m : wf df → wf (bool_index df m).
Proof.
  intros [Hnd Hlen]. split; [by rewrite bool_index_columns|].
  destruct df as [|[n c] df]; [constructor|].
  unfold bool_index. apply Forall_fmap.
  eapply Forall_impl; [exact Hlen|].
  intros [n' c'] H. simpl in *. by apply col_mask_len.
Qed.

(** C10.  On a well-formed table each cleaning handler returns a
    well-formed table (unique labels, all columns of one length) with the
    same column labels in the same order; [normalize] and [fill_missing]
    also keep the number of rows. *)
Theorem cleaning_preserves_shape (df : DataFrame) :
  wf df →
  (columns (remove_duplicates df) = columns df ∧ wf (remove_duplicates df)) ∧
  (columns (normalize df) = columns df ∧ wf (normalize df) ∧
   nrows (normalize df) = nrows df) ∧
  (columns (fill_missing df) = columns df ∧ wf (fill_missing df) ∧
   nrows (fill_missing df) = nrows df).
Proof.
  intros Hwf. pose proof Hwf as [Hnd _]. split; [|split].
  - split; [apply bool_index_columns|by apply bool_index_wf].
  - rewrite normalize_by_column by done. split; [|split].
    + apply map_numeric_columns.
    + apply map_numeric_wf; [apply normalize_col_length|done].
    + apply map_numeric_nrows, normalize_col_length.
  - rewrite fill_missing_by_column by done. split; [|split].
    + apply map_numeric_columns.
    + apply map_numeric_wf; [apply fill_col_length|done].
    + apply map_numeric_nrows, fill_col_length.
Qed.

Lemma cleaning_preserves_shape_witness :
  (columns (remove_duplicates ex_gaps) = columns ex_gaps ∧
   wf (remove_duplicates ex_gaps)) ∧
  (columns (normalize ex_gaps) = columns ex_gaps ∧ wf (normalize ex_gaps) ∧
   nrows (normalize ex_gaps) = nrows ex_gaps) ∧
  (columns (fill_missing ex_gaps) = columns ex_gaps ∧
   wf (fill_missing ex_gaps) ∧
   nrows (fill_missing ex_gaps) = nrows ex_gaps).
Proof. apply (cleaning_preserves_shape ex_gaps). solve_wf. Defined.

End ShapePreserved.

(** ** The insertion-ordered dict *)

Section Dict.

Context {V : Type}.
Implicit Types (d items : list (string * V)).

Lemma dict_set_keys d k v n :
  n ∈ (dict_set d k v).*1 ↔ n = k ∨ n ∈ d.*1.
Proof.
  induction d as [|[k' v'] d IH]; simpl.
  - rewrite list_elem_of_singleton, elem_of_nil. tauto.
  - destruct (decide (k' = k)) as [->|Hne]; simpl.
    + rewrite elem_of_cons. tauto.
    + rewrite !elem_of_cons, IH. tauto.
Qed.

Lemma dict_set_fresh d k v :
  k ∉ d.*1 → dict_set d k v = d ++ [(k, v)].
Proof.
  induction d as [|[k' v'] d IH]; simpl; intros Hk; [done|].
  apply not_elem_of_cons in Hk as [Hne Hk].
  rewrite decide_False by done. by rewrite IH.
Qed.

Lemma dict_set_NoDup d k v : NoDup d.*1 → NoDup (dict_set d k v).*1.
Proof.
  induction d as [|[k' v'] d IH]; simpl; intros Hnd.
  - apply NoDup_singleton.
  - apply NoDup_cons in Hnd as [Hk' Hnd].
    destruct (decide (k' = k)) as [->|Hne]; simpl.
    + by apply NoDup_cons.
    + apply NoDup_cons. split; [|by apply IH].
      rewrite dict_set_keys. intros [->|?]; done.
Qed.

Lemma dict_set_elem d k v n b :
  NoDup d.*1 →
  (n, b) ∈ dict_set d k v ↔ (n = k ∧ b = v) ∨ (n ≠ k ∧ (n, b) ∈ d).
Proof.
  induction d as [|[k' v'] d IH]; simpl; intros Hnd.
  - rewrite list_elem_of_singleton, elem_of_nil. split.
    + intros [= -> ->]. by left.
    + intros [[-> ->]|[_ []]]. done.
  - apply NoDup_cons in Hnd as [Hk' Hnd].
    destruct (decide (k' = k)) as [->|Hne].
    + rewrite !elem_of_cons. split.
      * intros [[= -> ->]|Hin]; [by left|]. right. split; [|by right].
        intros ->. apply Hk'. apply list_elem_of_fmap. by exists (k, b).
      * intros [[-> ->]|[Hne [[= ? ?]|Hin]]]; [by left|done|by right].
    + rewrite !elem_of_cons, IH by done. split.
      * intros [[= -> ->]|[[-> ->]|[? ?]]].
        -- right. split; [done|by left].
        -- by left.
        -- right. split; [done|by right].
      * intros [[-> ->]|[? [[= -> ->]|?]]].
        -- right. by left.
        -- by left.
        -- right. right. by split.
Qed.

Lemma dict_of_snoc items k v :
  dict_of (items ++ [(k, v)]) = dict_set (dict_of items) k v.
Proof. unfold dict_of. by rewrite foldl_app. Qed.

Lemma dict_of_NoDup items : NoDup (dict_of items).*1.
Proof.
  induction items as [|[k v] items IH] using rev_ind.
  - constructor.
  - rewrite dict_of_snoc. by apply dict_set_NoDup.
Qed.

(** One key per distinct name. *)
Lemma dict_of_keys items n : n ∈ (dict_of items).*1 ↔ n ∈ items.*1.
Proof.
  induction items as [|[k v] items IH] using rev_ind; [done|].
  rewrite dict_of_snoc, dict_set_keys, IH, fmap_app, elem_of_app.
  simpl. rewrite list_elem_of_singleton. tauto.
Qed.

(** A key holds the value of the last assignment to it. *)
Lemma dict_of_elem items n b :
  (n, b) ∈ dict_of items ↔
  ∃ pre post, items = pre ++ (n, b) :: post ∧ n ∉ post.*1.
Proof.
  induction items as [|[k v] items IH] using rev_ind.
  - split; [by intros ?%elem_of_nil|].
    intros (pre & post & H & _). by destruct pre.
  - rewrite dict_of_snoc, dict_set_elem by apply dict_of_NoDup. split.
    + intros [[-> ->]|[Hne Hin]].
      * exists items, []. split; [done|apply not_elem_of_nil].
      * apply IH in Hin as (pre & post & -> & Hpost).
        exists pre, (post ++ [(k, v)]). split.
        -- by rewrite <- app_assoc.
        -- rewrite fmap_app, elem_of_app. simpl.
           rewrite list_elem_of_singleton. tauto.
    + intros (pre & post & Heq & Hpost).
      destruct post as [|y post _] using rev_ind.
      * apply app_inj_tail in Heq as [_ [= -> ->]]. by left.
      * rewrite app_comm_cons, app_assoc in Heq.
        apply app_inj_tail in Heq as [-> <-].
        rewrite fmap_app, elem_of_app in Hpost. simpl in Hpost.
        rewrite list_elem_of_singleton in Hpost.
        right. split; [tauto|]. apply IH. exists pre, post. tauto.
Qed.

(** Without repeated names the dict is the list of assignments. *)
Lemma dict_of_distinct items : NoDup items.*1 → dict_of items = items.
Proof.
  induction items as [|[k v] items IH] using rev_ind; intros Hnd; [done|].
  rewrite fmap_app in Hnd. apply NoDup_app in Hnd as (Hnd & Hk & _).
  rewrite dict_of_snoc, IH by done. apply dict_set_fresh.
  intros Hin. apply (Hk k Hin). by left.
Qed.

End Dict.

Lemma zip_write_items (d : list (string * buffer)) : zip_write d = d.
Proof.
  unfold zip_write.
  assert (H : ∀ acc, foldl (λ zf (item : string * buffer),
                              zf ++ [(item.1, item.2)]) acc d = acc ++ d).
  { induction d as [|[n b] d IH]; intros acc; simpl.
    - by rewrite app_nil_r.
    - rewrite IH. by rewrite <- app_assoc. }
  apply (H []).
Qed.

(** ** The per-file loop *)

Section Loop.

Variable ui : string → widgets.

Lemma downloads_render e s :
  downloads (render e s) =
  downloads s ++ match e with
                 | st_download_button b n _ => [(n, b)]
                 | _ => []
                 end.
Proof. unfold downloads, render. simpl. rewrite omap_app. by destruct e. Qed.

Lemma archives_render e s :
  archives (render e s) =
  archives s ++ match e with st_download_all z _ => [z] | _ => [] end.
Proof. unfold archives, render. simpl. rewrite omap_app. by destruct e. Qed.

(** Cleaning and charting put no download on the page and leave the dict
    alone; the cleaned table does not depend on the page. *)
Lemma clean_state w (df : DataFrame) s :
  (clean w df s).1 = (clean w df initial).1 ∧
  downloads (clean w df s).2 = downloads s ∧
  archives (clean w df s).2 = archives s ∧
  processed_files (clean w df s).2 = processed_files s.
Proof.
  unfold clean.
  destruct (btn_remove_duplicates w), (btn_normalize w), (btn_fill_missing w);
    simpl; rewrite ?downloads_render, ?archives_render; simpl;
    rewrite ?app_nil_r; done.
Qed.

Lemma visualize_state w (df : DataFrame) s :
  downloads (visualize w df s) = downloads s ∧
  archives (visualize w df s) = archives s ∧
  processed_files (visualize w df s) = processed_files s.
Proof.
  unfold visualize. case_match; [|done].
  rewrite downloads_render, archives_render. simpl.
  by rewrite !app_nil_r.
Qed.

Lemma pipeline_state file (df : DataFrame) s :
  let item := converted ui file df in
  downloads (pipeline ui file (extension_of (name file)) df s)
    = downloads s ++ [item] ∧
  archives (pipeline ui file (extension_of (name file)) df s) = archives s ∧
  processed_files (pipeline ui file (extension_of (name file)) df s)
    = dict_set (processed_files s) item.1 item.2.
Proof.
  unfold pipeline, converted.
  set (s3 := render (st_dataframe (head df))
               (render (st_write_size (size file))
                  (render (st_subheader (name file)) s))).
  assert (H3 : downloads s3 = downloads s ∧ archives s3 = archives s ∧
               processed_files s3 = processed_files s).
  { unfold s3. rewrite !downloads_render, !archives_render. simpl.
    by rewrite !app_nil_r. }
  destruct H3 as (Hd3 & Ha3 & Hp3).
  destruct (clean_state (ui (name file)) df s3) as (Hdf & Hd & Ha & Hp).
  destruct (clean (ui (name file)) df s3) as [df' s4]. simpl in *.
  destruct (visualize_state (ui (name file)) df' s4) as (Hdv & Hav & Hpv).
  unfold convert. rewrite downloads_render, archives_render. simpl.
  unfold downloads, archives in *. simpl.
  rewrite Hdv, Hd, Hd3, Hav, Ha, Ha3, Hpv, Hp, app_nil_r, <- Hdf.
  by destruct (conversion_type (ui (name file))).
Qed.

Lemma process_file_state file s s' :
  process_file ui file s = Some s' →
  downloads s' = downloads s ++ option_list (individual_download ui file) ∧
  archives s' = archives s ∧
  processed_files s' =
    foldl (λ d (item : string * buffer), dict_set d item.1 item.2)
          (processed_files s) (option_list (individual_download ui file)).
Proof.
  unfold process_file, individual_download.
  destruct (decide (extension_of (name file) = ".csv")) as [Hc|Hc].
  - destruct (read_csv file) as [df|]; simpl; [|done].
    intros [= <-]. apply pipeline_state.
  - destruct (decide (extension_of (name file) = ".xlsx")) as [Hx|Hx].
    + destruct (read_excel file) as [df|]; simpl; [|done].
      intros [= <-]. apply pipeline_state.
    + intros [= <-]. rewrite downloads_render, archives_render. simpl.
      by rewrite !app_nil_r.
Qed.

Lemma omap_option_list {A B} (f : A → option B) x l :
  omap f (x :: l) = option_list (f x) ++ omap f l.
Proof. simpl. by destruct (f x). Qed.

Lemma process_files_state files : ∀ s s',
  process_files ui files s = Some s' →
  downloads s' = downloads s ++ omap (individual_download ui) files ∧
  archives s' = archives s ∧
  processed_files s' =
    foldl (λ d (item : string * buffer), dict_set d item.1 item.2)
          (processed_files s) (omap (individual_download ui) files).
Proof.
  induction files as [|file files IH]; intros s s'.
  - intros [= <-]. simpl. by rewrite app_nil_r.
  - rewrite omap_option_list, foldl_app. cbn [process_files].
    destruct (process_file ui file s) as [s1|] eqn:H1; [|done].
    cbn [mbind option_bind]. intros H.
    apply process_file_state in H1 as (Hd1 & Ha1 & Hp1).
    apply IH in H as (Hd & Ha & Hp).
    rewrite Hd, Hd1, Ha, Ha1, Hp, Hp1. by rewrite <- app_assoc.
Qed.

Lemma process_files_app pre rest s :
  process_files ui (pre ++ rest) s =
  s' ← process_files ui pre s; process_files ui rest s'.
Proof.
  revert s. induction pre as [|file pre IH]; intros s; [done|].
  simpl. destruct (process_file ui file s) as [s1|]; simpl; [apply IH|done].
Qed.

(** The loop returns as soon as no parser raises on a file it reads. *)
Lemma process_files_returns files s :
  Forall (λ file,
            (extension_of (name file) = ".csv" → is_Some (read_csv file)) ∧
            (extension_of (name file) = ".xlsx" → is_Some (read_excel file)))
         files →
  is_Some (process_files ui files s).
Proof.
  intros H. revert s. induction H as [|file files [Hc Hx] _ IH]; intros s.
  - by eexists.
  - simpl. unfold process_file.
    destruct (decide (extension_of (name file) = ".csv")) as [Hc'|Hc'].
    + destruct (Hc Hc') as [df ->]. simpl. apply IH.
    + destruct (decide (extension_of (name file) = ".xlsx")) as [Hx'|Hx'].
      * destruct (Hx Hx') as [df ->]. simpl. apply IH.
      * simpl. apply IH.
Qed.

End Loop.

(** ** Ingestion by extension *)

Section Ingestion.

Local Open Scope string_scope.

(** C6.  A file whose extension is neither [.csv] nor [.xlsx] is reported
    as unsupported and has no download; the loop goes on with the files
    after it, from the state that only gained the report. *)
Theorem unsupported_extension_skipped
        (ui : string → widgets) (pre rest : list UploadedFile)
        (file : UploadedFile) (s : state) :
  extension_of (name file) ≠ ".csv" →
  extension_of (name file) ≠ ".xlsx" →
  process_file ui file s
    = Some (render (st_error_unsupported (extension_of (name file))) s) ∧
  individual_download ui file = None ∧
  process_files ui (pre ++ file :: rest) s
    = s1 ← process_files ui pre s;
      process_files ui rest
        (render (st_error_unsupported (extension_of (name file))) s1).
Proof.
  intros Hc Hx.
  assert (Hf : ∀ s0, process_file ui file s0
            = Some (render (st_error_unsupported (extension_of (name file))) s0)).
  { intros s0. unfold process_file. by rewrite !decide_False by done. }
  split; [apply Hf|]. split.
  - unfold individual_download. by rewrite !decide_False by done.
  - rewrite process_files_app.
    destruct (process_files ui pre s) as [s1|]; [|done].
    simpl. by rewrite Hf.
Qed.

Lemma unsupported_extension_skipped_witness :
  process_file ui_csv notes_txt initial
    = Some (render (st_error_unsupported ".txt") initial) ∧
  individual_download ui_csv notes_txt = None ∧
  process_files ui_csv ([a_csv] ++ notes_txt :: [b_csv]) initial
    = s1 ← process_files ui_csv [a_csv] initial;
      process_files ui_csv [b_csv] (render (st_error_unsupported ".txt") s1).
Proof.
  apply (unsupported_extension_skipped ui_csv [a_csv] [b_csv] notes_txt initial);
    vm_compute; discriminate.
Defined.

(** The files around an unsupported one are converted all the same. *)
Example unsupported_between_two_files :
  downloads <$> main ui_csv [a_csv; notes_txt; b_csv]
  = Some [("a.csv", to_csv table_x); ("b.csv", to_csv table_y)].
Proof. reflexivity. Qed.

End Ingestion.

(** ** Visualization *)

Section Visualization.

(** C7 (as stated, refuted).  A table with a single numeric column goes
    through the whole per-file body: the page shows the file information
    and the download, and neither a chart nor an error. *)
Lemma one_numeric_column_no_error :
  process_file ui_csv one_csv initial
  = Some (State [st_subheader "one.csv"; st_write_size 16;
                 st_dataframe table_one_numeric;
                 st_download_button (to_csv table_one_numeric) "one.csv" "text/csv"]
                [("one.csv", to_csv table_one_numeric)])%string.
Proof. reflexivity. Qed.

(** C7 (amended).  With fewer than two numeric columns the visualization
    section does nothing: no chart, no error, the page and the dict are
    as before. *)
Theorem visualize_below_two_numeric (w : widgets) (df : DataFrame) (s : state) :
  length (columns (select_dtypes_number df)) < 2 →
  visualize w df s = s.
Proof.
  intros H. unfold visualize.
  destruct (2 <=? length (columns (select_dtypes_number df)))%nat eqn:Hle; [|done].
  apply Nat.leb_le in Hle. lia.
Qed.

Lemma visualize_below_two_numeric_witness :
  visualize (ui_csv "one.csv"%string) table_one_numeric initial = initial.
Proof.
  apply (visualize_below_two_numeric (ui_csv "one.csv"%string) table_one_numeric initial).
  vm_compute. lia.
Defined.

(** Behind the guard exactly one chart is drawn, over two numeric labels
    of the table. *)
Lemma visualize_two_numeric (w : widgets) (df : DataFrame) (s : state) :
  2 ≤ length (columns (select_dtypes_number df)) →
  ∃ fig, visualize w df s = render (st_plotly_chart fig) s.
Proof.
  intros H. unfold visualize.
  destruct (2 <=? length (columns (select_dtypes_number df)))%nat eqn:Hle.
  - by eexists.
  - apply Nat.leb_gt in Hle. lia.
Qed.

End Visualization.

(** ** Naming of the converted file *)

Section Naming.

Local Open Scope string_scope.

(** C9 (evaluation at failing inputs).  [str.replace] is given the
    lower-cased extension and rewrites every occurrence of it: an
    upper-case extension is left in place, and an occurrence inside the
    stem is rewritten together with the trailing one. *)
Theorem output_name_rewrites_occurrences :
  (output_name "REPORT.CSV" (extension_of "REPORT.CSV") Excel = "REPORT.CSV" ∧
   replace_extension "REPORT.CSV" Excel = "REPORT.xlsx") ∧
  (output_name "data.csv.old.csv" (extension_of "data.csv.old.csv") Excel
     = "data.xlsx.old.xlsx" ∧
   replace_extension "data.csv.old.csv" Excel = "data.csv.old.xlsx").
Proof. repeat split; reflexivity. Qed.

(** On a plain name both agree. *)
Example output_name_plain :
  output_name "sales.csv" (extension_of "sales.csv") Excel = "sales.xlsx" ∧
  replace_extension "sales.csv" Excel = "sales.xlsx".
Proof. split; reflexivity. Qed.

End Naming.

(** ** The bulk archive *)

Section Bundle.


Lemma bundle_state (s : state) :
  archives s = [] →
  downloads (render st_success (bundle s)) = downloads s ∧
  archives (render st_success (bundle s)) =
    match processed_files s with
    | [] => []
    | d => [d]
    end.
Proof.
  intros Ha. unfold bundle.
  destruct (processed_files s) as [|item d] eqn:Hp.
  - rewrite downloads_render, archives_render, Ha. simpl.
    by rewrite app_nil_r.
  - rewrite !downloads_render, !archives_render, Ha. simpl.
    by rewrite !app_nil_r, zip_write_items.
Qed.



(** The run completes whenever the parsers return on the files read. *)
Lemma main_returns (ui : string → widgets) (uploaded_files : list UploadedFile) :
  Forall (λ file,
            (extension_of (name file) = ".csv"%string → is_Some (read_csv file)) ∧
            (extension_of (name file) = ".xlsx"%string → is_Some (read_excel file)))
         uploaded_files →
  is_Some (main ui uploaded_files).
Proof.
  intros H. unfold main.
  destruct (process_files_returns ui uploaded_files initial H) as [s ->].
  by eexists.
Qed.

End Bundle.

(** * Further properties of the handlers *)

(** ** Duplicates: what is left *)

Section DuplicatesLeft.

Lemma mask_filter_sublist {A} (m : list bool) : ∀ l : list A,
  mask_filter m l `sublist_of` l.
Proof.
induction m as [|b m IH]; intros [|x l]; simpl; try done.
- apply sublist_nil_l.
- destruct b; [by apply sublist_skip|by apply sublist_cons].
Qed.

(** The rows kept by the scan are pairwise distinct; they are the rows
    not seen before the scan, each once. *)
Lemma kept_rows_NoDup (rs : list row) : ∀ seen,
  NoDup (mask_filter (negb <$> duplicated_from seen rs) rs) ∧
  ∀ r, r ∈ mask_filter (negb <$> duplicated_from seen rs) rs ↔
       r ∈ rs ∧ r ∉ seen.
Proof.
induction rs as [|r0 rs IH]; intros seen; simpl.
- split; [constructor|]. intros r. rewrite elem_of_nil. tauto.
- destruct (IH (r0 :: seen)) as [Hnd Hel].
  destruct (decide (r0 ∈ seen)) as [Hin|Hnin].
  + rewrite bool_decide_eq_true_2 by done. simpl. split; [done|].
    intros r. rewrite Hel, !elem_of_cons. split.
    * intros [? ?]. split; [by right|tauto].
    * intros [[->|?] ?]; [done|]. split; [done|].
      intros [->|?]; done.
  + rewrite bool_decide_eq_false_2 by done. simpl. split.
    * constructor; [|done]. rewrite Hel, elem_of_cons. tauto.
    * intros r. rewrite !elem_of_cons, Hel, elem_of_cons.
      destruct (decide (r = r0)) as [->|]; tauto.
Qed.

Lemma duplicated_from_distinct (rs : list row) : ∀ seen,
  NoDup rs → (∀ r, r ∈ rs → r ∉ seen) →
  duplicated_from seen rs = replicate (length rs) false.
Proof.
induction rs as [|r0 rs IH]; intros seen Hnd Hseen; simpl; [done|].
apply NoDup_cons in Hnd as [Hr0 Hnd].
rewrite bool_decide_eq_false_2 by (apply Hseen; by left).
f_equal. apply IH; [done|].
intros r Hr [->|Hin]%elem_of_cons; [done|].
apply (Hseen r); [by right|done].
Qed.

Lemma mask_filter_all {A} (l : list A) :
  mask_filter (replicate (length l) true) l = l.
Proof. induction l as [|x l IH]; simpl; [done|]. by rewrite IH. Qed.

Lemma col_mask_all (c : column) :
  col_mask (replicate (col_len c) true) c = c.
Proof. destruct c; simpl; by rewrite mask_filter_all. Qed.

Lemma drop_duplicates_distinct (df : DataFrame) :
  wf df → NoDup (rows df) → drop_duplicates df = df.
Proof.
intros Hwf Hnd. pose proof Hwf as [_ Hlen].
unfold drop_duplicates, duplicated.
rewrite duplicated_from_distinct;
  [|done|intros r _; apply not_elem_of_nil].
rewrite fmap_replicate, rows_length by done. simpl.
unfold bool_index. rewrite <- (list_fmap_id df) at 2.
apply fmap_ext_elem. intros [n c] Hin. simpl.
rewrite Forall_forall in Hlen. rewrite <- (Hlen (n, c) Hin). simpl.
by rewrite col_mask_all.
Qed.

Lemma drop_duplicates_rows (df : DataFrame) :
  rows (drop_duplicates df)
  = mask_filter (negb <$> duplicated_from [] (rows df)) (rows df).
Proof. unfold drop_duplicates, duplicated. apply rows_bool_index. Qed.

(** X1.  A well-formed table in which no two rows are equal is returned
    unchanged by [remove_duplicates]. *)
Theorem remove_duplicates_distinct (df : DataFrame) :
  wf df → NoDup (rows df) → remove_duplicates df = df.
Proof. intros Hwf Hnd. by apply drop_duplicates_distinct. Qed.

Lemma remove_duplicates_distinct_witness :
  remove_duplicates ex_gaps = ex_gaps.
Proof.
apply (remove_duplicates_distinct ex_gaps); [solve_wf|].
apply (bool_decide_unpack _). vm_compute. reflexivity.
Defined.

(** X2.  Removing duplicates twice is removing them once. *)
Theorem remove_duplicates_idempotent (df : DataFrame) :
  wf df →
  remove_duplicates (remove_duplicates df) = remove_duplicates df.
Proof.
intros Hwf. unfold remove_duplicates. apply drop_duplicates_distinct.
- by apply bool_index_wf.
- rewrite drop_duplicates_rows. apply kept_rows_NoDup.
Qed.

Lemma remove_duplicates_idempotent_witness :
  remove_duplicates (remove_duplicates ex_dups) = remove_duplicates ex_dups.
Proof. apply (remove_duplicates_idempotent ex_dups). solve_wf. Defined.

(** X3.  The rows left by [remove_duplicates] are pairwise distinct, they
    are a subsequence of the original rows, and every original row is
    still among them. *)
Theorem remove_duplicates_rows_distinct (df : DataFrame) :
  NoDup (rows (remove_duplicates df)) ∧
  rows (remove_duplicates df) `sublist_of` rows df ∧
  ∀ r, r ∈ rows (remove_duplicates df) ↔ r ∈ rows df.
Proof.
unfold remove_duplicates. rewrite drop_duplicates_rows.
destruct (kept_rows_NoDup (rows df) []) as [Hnd Hel].
split; [done|]. split; [apply mask_filter_sublist|].
intros r. rewrite Hel. pose proof (not_elem_of_nil r). tauto.
Qed.

End DuplicatesLeft.

(** ** Filling and normalizing twice *)

Section Twice.

Local Open Scope Qc_scope.

Lemma map_numeric_compose (g h : list Float.t → list Float.t) (df : DataFrame) :
  map_numeric g (map_numeric h df) = map_numeric (g ∘ h) df.
Proof.
unfold map_numeric. rewrite <- list_fmap_compose. apply fmap_ext_elem.
by intros [n [vs|vs]] _.
Qed.

Lemma map_numeric_ext (g h : list Float.t → list Float.t) (df : DataFrame) :
  (∀ vs, g vs = h vs) → map_numeric g df = map_numeric h df.
Proof.
intros H. apply fmap_ext_elem. intros [n [vs|vs]] _; simpl; [|done].
by rewrite H.
Qed.

Lemma fill_cell_nan_id (vs : list Float.t) : fill_cell None <$> vs = vs.
Proof.
rewrite <- (list_fmap_id vs) at 2. apply fmap_ext_elem. by intros [x|] _.
Qed.

Lemma fill_cell_present_id m (vs : list Float.t) :
  None ∉ vs → fill_cell m <$> vs = vs.
Proof.
intros H. rewrite <- (list_fmap_id vs) at 2. apply fmap_ext_elem.
intros [x|] Hin; [done|by destruct H].
Qed.

Lemma fill_col_no_nan (vs : list Float.t) m :
  Float.mean vs = Some m → None ∉ fill_col vs.
Proof.
intros Hm. unfold fill_col. rewrite Hm.
intros [[x|] [Heq _]]%list_elem_of_fmap; done.
Qed.

Lemma fill_col_twice (vs : list Float.t) : fill_col (fill_col vs) = fill_col vs.
Proof.
destruct (Float.mean vs) as [m|] eqn:Hm.
- unfold fill_col at 1. apply fill_cell_present_id. by eapply fill_col_no_nan.
- assert (Hid : fill_col vs = vs).
  { unfold fill_col. rewrite Hm. apply fill_cell_nan_id. }
  by rewrite !Hid.
Qed.

(** X4.  Filling missing values twice is filling them once. *)
Theorem fill_missing_idempotent (df : DataFrame) :
  wf df → fill_missing (fill_missing df) = fill_missing df.
Proof.
intros [Hnd _].
rewrite (fill_missing_by_column df) by done.
rewrite fill_missing_by_column by (by rewrite map_numeric_columns).
rewrite map_numeric_compose. apply map_numeric_ext, fill_col_twice.
Qed.

Lemma fill_missing_idempotent_witness :
  fill_missing (fill_missing ex_gaps) = fill_missing ex_gaps.
Proof. apply (fill_missing_idempotent ex_gaps). solve_wf. Defined.

(** The minimum is the only present value below all present values. *)
Lemma min_unique (vs : list Float.t) (lo : Qc) :
  Some lo ∈ vs → (∀ x, Some x ∈ vs → lo ≤ x) → Float.min vs = Some lo.
Proof.
intros Hin Hle. destruct (Float.min vs) as [m|] eqn:Hm.
- destruct (min_spec vs m Hm) as [Hm_in Hm_le].
  f_equal. apply Qcle_antisym; auto.
- unfold Float.min in Hm. rewrite reduce_present in Hm.
  apply present_elem in Hin. by destruct (Float.present vs); [apply elem_of_nil in Hin|].
Qed.

Lemma max_unique (vs : list Float.t) (hi : Qc) :
  Some hi ∈ vs → (∀ x, Some x ∈ vs → x ≤ hi) → Float.max vs = Some hi.
Proof.
intros Hin Hle. destruct (Float.max vs) as [m|] eqn:Hm.
- destruct (max_spec vs m Hm) as [Hm_in Hm_le].
  f_equal. apply Qcle_antisym; auto.
- unfold Float.max in Hm. rewrite reduce_present in Hm.
  apply present_elem in Hin. by destruct (Float.present vs); [apply elem_of_nil in Hin|].
Qed.

(** A column of NaN cells is a fixed point of the rescaling. *)
Lemma normalize_col_all_nan {A} (l : list A) :
  normalize_col ((λ _, Float.nan) <$> l) = (λ _, Float.nan) <$> l.
Proof.
unfold normalize_col. rewrite <- list_fmap_compose. by apply fmap_ext_elem.
Qed.

Lemma normalize_col_no_min (vs : list Float.t) :
  Float.min vs = None → normalize_col vs = (λ _, Float.nan) <$> vs.
Proof.
intros Hmin. unfold normalize_col. rewrite Hmin.
apply fmap_ext_elem. by intros [v|] _.
Qed.

Lemma normalize_col_cells (vs : list Float.t) (lo hi : Qc) :
  Float.min vs = Some lo → Float.max vs = Some hi → lo ≠ hi →
  normalize_col vs =
  (λ v : Float.t, match v with
                  | Some x => Some ((x - lo) / (hi - lo))
                  | None => None
                  end) <$> vs.
Proof.
intros Hmin Hmax Hne. unfold normalize_col. rewrite Hmin, Hmax.
apply fmap_ext_elem. intros [x|] _; [|done]. simpl.
rewrite Qc_eq_bool_false; [done|].
intros Heq. apply Hne.
replace hi with ((hi - lo) + lo) by ring. rewrite Heq. ring.
Qed.

Lemma normalize_col_twice (vs : list Float.t) :
  normalize_col (normalize_col vs) = normalize_col vs.
Proof.
destruct (Float.min vs) as [lo|] eqn:Hmin.
2: { rewrite (normalize_col_no_min vs Hmin). apply normalize_col_all_nan. }
destruct (Float.max vs) as [hi|] eqn:Hmax.
2: { apply min_max_none in Hmax. congruence. }
destruct (decide (lo = hi)) as [<-|Hne].
{ rewrite (normalize_col_zero_range vs lo Hmin Hmax).
  apply normalize_col_all_nan. }
destruct (min_spec vs lo Hmin) as [Hlo_in Hlo].
destruct (max_spec vs hi Hmax) as [Hhi_in Hhi].
assert (Hlt : lo < hi).
{ destruct (Qcle_lt_or_eq lo hi); [by apply Hlo|done|done]. }
rewrite (normalize_col_cells vs lo hi Hmin Hmax Hne).
set (f := λ v : Float.t, match v with
                         | Some x => Some ((x - lo) / (hi - lo))
                         | None => None
                         end).
assert (Hel : ∀ r, Some r ∈ f <$> vs → ∃ x, Some x ∈ vs ∧ r = (x - lo) / (hi - lo)).
{ intros r [[x|] [Heq Hin]]%list_elem_of_fmap; simpl in Heq; [|done].
  injection Heq as ->. by exists x. }
assert (Hmin' : Float.min (f <$> vs) = Some (Q2Qc 0)).
{ apply min_unique.
  - apply list_elem_of_fmap. exists (Some lo). split; [|done].
    simpl. by rewrite scale_min.
  - intros r (x & Hx & ->)%Hel. by apply scale_bounds; auto. }
assert (Hmax' : Float.max (f <$> vs) = Some 1).
{ apply max_unique.
  - apply list_elem_of_fmap. exists (Some hi). split; [|done].
    simpl. by rewrite scale_max.
  - intros r (x & Hx & ->)%Hel. by apply scale_bounds; auto. }
unfold normalize_col. rewrite Hmin', Hmax'.
rewrite <- (list_fmap_id (f <$> vs)) at 2. apply fmap_ext_elem.
intros [r|] _; [|done]. simpl. f_equal. field. discriminate.
Qed.



End Twice.

(** ** What cleaning leaves alone *)

Section LeftAlone.

Local Open Scope Qc_scope.

(** X6.  [normalize] and [fill_missing] return every non-numeric column
    exactly as it was. *)
Theorem text_columns_untouched (df : DataFrame) c (vs : list (option string)) :
  wf df → (c, ObjCol vs) ∈ df →
  get_col (normalize df) c = Some (ObjCol vs) ∧
  get_col (fill_missing df) c = Some (ObjCol vs).
Proof.
intros [Hnd _] Hin.
rewrite normalize_by_column, fill_missing_by_column by done.
split; by apply map_numeric_get_obj.
Qed.

Lemma text_columns_untouched_witness :
  get_col (normalize ex_gaps) "name"
    = Some (ObjCol [Some "a"; Some "b"; None; Some "d"]%string) ∧
  get_col (fill_missing ex_gaps) "name"
    = Some (ObjCol [Some "a"; Some "b"; None; Some "d"]%string).
Proof.
apply (text_columns_untouched ex_gaps); [solve_wf|elem_now].
Defined.

Lemma select_relabel (f : string * column → column) (df : DataFrame) :
  (∀ nc, is_numeric (f nc) = is_numeric nc.2) →
  columns (select_dtypes_number ((λ nc, (nc.1, f nc)) <$> df))
  = columns (select_dtypes_number df).
Proof.
intros Hf. induction df as [|[n c] df IH]; [done|].
rewrite fmap_cons.
pose proof (Hf (n, c)) as Hn.
cbn [fst snd] in *.
destruct (f (n, c)) as [ws|ws], c as [vs|vs]; simpl in Hn;
  try discriminate; rewrite ?select_cons_num, ?select_cons_obj; [|exact IH].
unfold columns in *. rewrite !fmap_cons. simpl. by rewrite IH.
Qed.

(** X7.  No cleaning handler changes which columns are numeric: the axis
    options offered for the chart are the same before and after. *)
Theorem numeric_labels_preserved (df : DataFrame) :
  wf df →
  columns (select_dtypes_number (remove_duplicates df))
    = columns (select_dtypes_number df) ∧
  columns (select_dtypes_number (normalize df))
    = columns (select_dtypes_number df) ∧
  columns (select_dtypes_number (fill_missing df))
    = columns (select_dtypes_number df).
Proof.
intros [Hnd _].
rewrite normalize_by_column, fill_missing_by_column by done.
split; [|split].
- apply (select_relabel (λ nc, col_mask (negb <$> duplicated df) nc.2)).
  by intros [n [vs|vs]].
- apply (select_relabel
           (λ nc, match nc.2 with NumCol vs => NumCol (normalize_col vs) | c => c end)).
  by intros [n [vs|vs]].
- apply (select_relabel
           (λ nc, match nc.2 with NumCol vs => NumCol (fill_col vs) | c => c end)).
  by intros [n [vs|vs]].
Qed.

Lemma numeric_labels_preserved_witness :
  columns (select_dtypes_number (remove_duplicates ex_gaps))
    = columns (select_dtypes_number ex_gaps) ∧
  columns (select_dtypes_number (normalize ex_gaps))
    = columns (select_dtypes_number ex_gaps) ∧
  columns (select_dtypes_number (fill_missing ex_gaps))
    = columns (select_dtypes_number ex_gaps).
Proof. apply (numeric_labels_preserved ex_gaps). solve_wf. Defined.

(** *** The mean lies between the minimum and the maximum *)

Lemma count_cons (x : Qc) (xs : list Qc) :
  Float.count (x :: xs) = 1 + Float.count xs.
Proof.
unfold Float.count. apply Qc_is_canon. simpl length.
rewrite Nat2Z.inj_succ, <- Z.add_1_l, inject_Z_plus.
unfold Qcplus. simpl this.
rewrite !Qred_correct. reflexivity.
Qed.

Lemma count_nonneg (xs : list Qc) : Q2Qc 0 ≤ Float.count xs.
Proof.
induction xs as [|x xs IH]; [apply Qcle_refl|].
rewrite count_cons. replace (Q2Qc 0) with (Q2Qc 0 + Q2Qc 0) by ring.
apply Qcplus_le_compat; [done|exact IH].
Qed.

Lemma count_pos (x : Qc) (xs : list Qc) : Q2Qc 0 < Float.count (x :: xs).
Proof.
rewrite count_cons. apply Qcplus_pos_nonneg; [done|apply count_nonneg].
Qed.

Lemma sum_bounds (lo hi : Qc) (xs : list Qc) :
  (∀ x, x ∈ xs → lo ≤ x ∧ x ≤ hi) →
  lo * Float.count xs ≤ Float.sum xs ∧ Float.sum xs ≤ hi * Float.count xs.
Proof.
induction xs as [|x xs IH]; intros H.
- unfold Float.count, Float.sum. simpl.
  replace (Q2Qc (inject_Z 0)) with (Q2Qc 0) by (by apply Qc_is_canon).
  rewrite !Qcmult_0_r. split; apply Qcle_refl.
- destruct IH as [IHlo IHhi]; [intros y Hy; apply H; by right|].
  destruct (H x) as [Hlo Hhi]; [by left|].
  rewrite count_cons. unfold Float.sum in *. simpl.
  replace (lo * (1 + Float.count xs)) with (lo + lo * Float.count xs) by ring.
  replace (hi * (1 + Float.count xs)) with (hi + hi * Float.count xs) by ring.
  split; by apply Qcplus_le_compat.
Qed.

Lemma mean_between (vs : list Float.t) (lo hi : Qc) :
  Float.min vs = Some lo → Float.max vs = Some hi →
  ∃ m, Float.mean vs = Some m ∧ lo ≤ m ∧ m ≤ hi.
Proof.
intros Hmin Hmax.
destruct (min_spec vs lo Hmin) as [Hlo_in Hlo].
destruct (max_spec vs hi Hmax) as [_ Hhi].
unfold Float.mean.
destruct (Float.present vs) as [|x xs] eqn:Hp.
{ apply present_elem in Hlo_in. rewrite Hp in Hlo_in.
  by apply elem_of_nil in Hlo_in. }
eexists. split; [done|].
destruct (sum_bounds lo hi (x :: xs)) as [Hs1 Hs2].
{ intros y Hy. rewrite <- Hp in Hy. apply present_elem in Hy. auto. }
pose proof (count_pos x xs) as Hpos.
assert (Hne : Float.count (x :: xs) ≠ Q2Qc 0).
{ intros Heq. rewrite Heq in Hpos. apply Qclt_not_le in Hpos.
  apply Hpos, Qcle_refl. }
split; apply (Qcmult_lt_0_le_reg_r _ _ _ Hpos);
  by rewrite (test_field _ _ Hne).
Qed.



End LeftAlone.

(** ** The cleaning section as a whole *)

Section CleaningSection.

Lemma bool_index_nrows (df : DataFrame) m : nrows (bool_index df m) ≤ nrows df.
Proof.
destruct df as [|[n c] df]; simpl; [done|].
rewrite !col_len_cells, cells_col_mask.
apply sublist_length, mask_filter_sublist.
Qed.

Lemma shape_kept_refl (df : DataFrame) : wf df → shape_kept df df.
Proof. by intros H. Qed.

Lemma shape_kept_trans (a b c : DataFrame) :
  shape_kept a b → shape_kept b c → shape_kept a c.
Proof.
intros (Hw1 & Hc1 & Hs1 & Hn1) (Hw2 & Hc2 & Hs2 & Hn2).
split; [done|]. split; [congruence|]. split; [congruence|lia].
Qed.

Lemma drop_duplicates_shape (df : DataFrame) :
  wf df → shape_kept df (drop_duplicates df).
Proof.
intros Hwf. split; [by apply bool_index_wf|].
split; [apply bool_index_columns|]. split; [|apply bool_index_nrows].
apply (select_relabel (λ nc, col_mask (negb <$> duplicated df) nc.2)).
by intros [n [vs|vs]].
Qed.

Lemma map_numeric_shape (g : list Float.t → list Float.t) (df : DataFrame) :
  (∀ vs, length (g vs) = length vs) →
  wf df → shape_kept df (map_numeric g df).
Proof.
intros Hg Hwf. split; [by apply map_numeric_wf|].
split; [apply map_numeric_columns|]. split.
- apply (select_relabel
           (λ nc, match nc.2 with NumCol vs => NumCol (g vs) | c => c end)).
  by intros [n [vs|vs]].
- by rewrite map_numeric_nrows.
Qed.

(** X9.  Whatever buttons are pressed, the table that reaches the chart
    and the conversion is well formed, has the labels of the table read,
    in the same order, the same numeric columns, and no more rows; the
    row count is the same when duplicates are not removed. *)
Theorem clean_keeps_shape (w : widgets) (df : DataFrame) (s : state) :
  wf df →
  wf (clean w df s).1 ∧
  columns (clean w df s).1 = columns df ∧
  columns (select_dtypes_number (clean w df s).1)
    = columns (select_dtypes_number df) ∧
  nrows (clean w df s).1 ≤ nrows df ∧
  (btn_remove_duplicates w = false → nrows (clean w df s).1 = nrows df).
Proof.
intros Hwf.
assert (Hnorm : ∀ d, wf d → shape_kept d (normalize d) ∧ nrows (normalize d) = nrows d).
{ intros d Hd. pose proof Hd as [Hnd _]. rewrite normalize_by_column by done.
  split; [apply map_numeric_shape; [apply normalize_col_length|done]|].
  apply map_numeric_nrows, normalize_col_length. }
assert (Hfill : ∀ d, wf d → shape_kept d (fill_missing d) ∧
                             nrows (fill_missing d) = nrows d).
{ intros d Hd. pose proof Hd as [Hnd _]. rewrite fill_missing_by_column by done.
  split; [apply map_numeric_shape; [apply fill_col_length|done]|].
  apply map_numeric_nrows, fill_col_length. }
unfold clean, remove_duplicates.
set (d1 := if btn_remove_duplicates w then drop_duplicates df else df).
assert (H1 : shape_kept df d1 ∧ (btn_remove_duplicates w = false → nrows d1 = nrows df)).
{ unfold d1. destruct (btn_remove_duplicates w).
  - split; [by apply drop_duplicates_shape|done].
  - split; [by apply shape_kept_refl|done]. }
set (d2 := if btn_normalize w then normalize d1 else d1).
assert (H2 : shape_kept d1 d2 ∧ nrows d2 = nrows d1).
{ unfold d2. destruct (btn_normalize w).
  - apply Hnorm, H1.
  - split; [apply shape_kept_refl, H1|done]. }
set (d3 := if btn_fill_missing w then fill_missing d2 else d2).
assert (H3 : shape_kept d2 d3 ∧ nrows d3 = nrows d2).
{ unfold d3. destruct (btn_fill_missing w).
  - apply Hfill, H2.
  - split; [apply shape_kept_refl, H2|done]. }
assert (Heq : (clean w df s).1 = d3).
{ unfold clean, remove_duplicates, d3, d2, d1.
  by destruct (btn_remove_duplicates w), (btn_normalize w), (btn_fill_missing w). }
unfold clean, remove_duplicates in Heq. rewrite Heq.
destruct H1 as [K1 E1], H2 as [K2 E2], H3 as [K3 E3].
destruct (shape_kept_trans _ _ _ (shape_kept_trans _ _ _ K1 K2) K3)
  as (Hw & Hc & Hs & Hn).
split; [exact Hw|]. split; [exact Hc|]. split; [exact Hs|].
split; [exact Hn|]. intros Hb. rewrite E3, E2. by apply E1.
Qed.

Lemma clean_keeps_shape_witness :
  wf (clean (Widgets true true true BarChart 0 1 CSV) ex_dups initial).1 ∧
  columns (clean (Widgets true true true BarChart 0 1 CSV) ex_dups initial).1
    = columns ex_dups.
Proof.
destruct (clean_keeps_shape (Widgets true true true BarChart 0 1 CSV)
                            ex_dups initial) as (Hw & Hc & _).
- solve_wf.
- by split.
Defined.

End CleaningSection.

(** * File names *)

(** ** Strings and character lists *)

Section Chars.

Lemma of_chars_chars (s : string) : Str.of_chars (Str.chars s) = s.
Proof. apply string_of_list_ascii_of_string. Qed.

Lemma chars_of_chars (l : list ascii) : Str.chars (Str.of_chars l) = l.
Proof. apply list_ascii_of_string_of_list_ascii. Qed.

Lemma of_chars_app (a b : list ascii) :
  Str.of_chars (a ++ b) = String.append (Str.of_chars a) (Str.of_chars b).
Proof.
unfold Str.of_chars. induction a as [|c a IH]; [done|].
simpl string_of_list_ascii. rewrite IH. reflexivity.
Qed.

Lemma append_empty_r (s : string) : String.append s EmptyString = s.
Proof.
induction s as [|c s IH]; [done|].
change (String c (String.append s EmptyString) = String c s). by rewrite IH.
Qed.

Lemma chars_inj (s t : string) : Str.chars s = Str.chars t → s = t.
Proof.
intros H. rewrite <- (of_chars_chars s), <- (of_chars_chars t). by rewrite H.
Qed.

(** [rfind]: nothing found, or the last position holding the character. *)
Lemma rfind_from_spec (p : list ascii) (c : ascii) : ∀ i acc,
  ((c ∉ p) ∧ Str.rfind_from i acc p c = acc) ∨
  (∃ k, p !! k = Some c ∧ (∀ j, k < j → p !! j ≠ Some c) ∧
        Str.rfind_from i acc p c = (i + Z.of_nat k)%Z).
Proof.
induction p as [|a p IH]; intros i acc; simpl.
- left. split; [apply not_elem_of_nil|done].
- destruct (IH (i + 1)%Z (if decide (a = c) then i else acc))
    as [[Hnin Heq]|(k & Hk & Hlast & Heq)].
  + destruct (decide (a = c)) as [->|Hne].
    * right. exists 0. split; [done|]. split; [|rewrite Heq; lia].
      intros [|j] Hj; [lia|]. simpl. intros Hc.
      apply Hnin. by eapply list_elem_of_lookup_2.
    * left. split; [|done]. by apply not_elem_of_cons.
  + right. exists (S k). split; [done|]. split; [|rewrite Heq; lia].
    intros [|j] Hj; [lia|]. simpl. apply Hlast. lia.
Qed.

Lemma rfind_spec (p : list ascii) (c : ascii) :
  ((c ∉ p) ∧ Str.rfind p c = (-1)%Z) ∨
  (∃ k, p !! k = Some c ∧ (∀ j, k < j → p !! j ≠ Some c) ∧
        Str.rfind p c = Z.of_nat k).
Proof.
unfold Str.rfind.
destruct (rfind_from_spec p c 0 (-1)) as [?|(k & ? & ? & ->)]; [by left|].
right. by exists k.
Qed.

Lemma rfind_absent (p : list ascii) (c : ascii) :
  c ∉ p → Str.rfind p c = (-1)%Z.
Proof.
intros Hnin. destruct (rfind_spec p c) as [[_ ?]|(k & Hk & _)]; [done|].
destruct Hnin. by eapply list_elem_of_lookup_2.
Qed.

Lemma rfind_last (p : list ascii) (c : ascii) k :
  p !! k = Some c → (∀ j, k < j → p !! j ≠ Some c) →
  Str.rfind p c = Z.of_nat k.
Proof.
intros Hk Hlast. destruct (rfind_spec p c) as [[Hnin _]|(k' & Hk' & Hlast' & ->)].
- destruct Hnin. by eapply list_elem_of_lookup_2.
- f_equal. destruct (Nat.lt_trichotomy k k') as [Hlt|[->|Hgt]]; [|done|].
  + by destruct (Hlast k' Hlt).
  + by destruct (Hlast' k Hgt).
Qed.

End Chars.

(** ** [os.path.splitext] *)

Section Splitext.

Local Open Scope Z_scope.

(** X10.  [splitext] only cuts: the root followed by the extension is the
    path it was given. *)
Theorem splitext_concat (p : string) :
  String.append (OsPath.splitext p).1 (OsPath.splitext p).2 = p.
Proof.
unfold OsPath.splitext. case_match; simpl.
- rewrite <- of_chars_app, take_drop. apply of_chars_chars.
- apply append_empty_r.
Qed.

(** X11.  The extension [splitext] returns is empty, or it is a dot
    followed by characters among which there is neither a dot nor a path
    separator. *)
Theorem splitext_extension_shape (p : string) :
  (OsPath.splitext p).2 = EmptyString ∨
  ∃ rest, Str.chars (OsPath.splitext p).2 = OsPath.extsep :: rest ∧
          (OsPath.extsep ∉ rest) ∧ (OsPath.sep ∉ rest).
Proof.
unfold OsPath.splitext.
destruct (bool_decide (Str.rfind (Str.chars p) OsPath.extsep
                       > Str.rfind (Str.chars p) OsPath.sep)) eqn:Hgt;
  simpl; [|by left].
destruct (OsPath.has_stem _ _ _); simpl; [|by left].
apply bool_decide_eq_true in Hgt. right.
set (cs := Str.chars p) in *.
destruct (rfind_spec cs OsPath.extsep) as [[_ Hd]|(k & Hk & Hlast & Hd)].
{ destruct (rfind_spec cs OsPath.sep) as [[_ Hs]|(k' & _ & _ & Hs)]; lia. }
rewrite Hd, Nat2Z.id in *. rewrite chars_of_chars.
exists (drop (S k) cs). split; [by apply drop_S|]. split.
- intros [j Hj]%list_elem_of_lookup. rewrite lookup_drop in Hj.
  apply (Hlast (S k + j)%nat); [lia|done].
- intros [j Hj]%list_elem_of_lookup. rewrite lookup_drop in Hj.
  destruct (rfind_spec cs OsPath.sep) as [[Hnin _]|(k' & _ & Hlast' & Hs)].
  + destruct Hnin. by eapply list_elem_of_lookup_2.
  + apply (Hlast' (S k + j)%nat); [lia|done].
Qed.

End Splitext.

(** ** Plain names *)

Section PlainNames.

Lemma lower_of_chars (l : list ascii) :
  Str.lower (Str.of_chars l) = Str.of_chars (Str.lower_char <$> l).
Proof. unfold Str.lower. by rewrite chars_of_chars. Qed.

Lemma splitext_plain (c0 : ascii) (stem e : list ascii) :
  c0 ≠ OsPath.extsep → OsPath.sep ∉ c0 :: stem →
  OsPath.extsep ∉ e → OsPath.sep ∉ e →
  OsPath.splitext (Str.of_chars ((c0 :: stem) ++ OsPath.extsep :: e))
  = (Str.of_chars (c0 :: stem), Str.of_chars (OsPath.extsep :: e)).
Proof.
intros Hc0 Hsep_stem Hdot_e Hsep_e.
set (cs := (c0 :: stem) ++ OsPath.extsep :: e).
assert (Hdot : Str.rfind cs OsPath.extsep = Z.of_nat (length (c0 :: stem))).
{ apply rfind_last.
  - unfold cs. by rewrite list_lookup_middle.
  - intros j Hj Hlook. unfold cs in Hlook.
    rewrite lookup_app_r in Hlook by lia.
    destruct (j - length (c0 :: stem)) as [|i] eqn:Hi; [lia|].
    simpl in Hlook. apply Hdot_e. by eapply list_elem_of_lookup_2. }
assert (Hsep : Str.rfind cs OsPath.sep = (-1)%Z).
{ apply rfind_absent. unfold cs. intros [H|H]%elem_of_app; [done|].
  apply elem_of_cons in H as [H|H]; [discriminate H|done]. }
unfold OsPath.splitext. rewrite chars_of_chars. fold cs.
rewrite Hdot, Hsep.
rewrite bool_decide_eq_true_2 by lia.
replace (Z.of_nat (length (c0 :: stem)) - (-1 + 1))%Z
  with (Z.of_nat (length (c0 :: stem))) by lia.
rewrite Nat2Z.id. simpl length.
change (-1 + 1)%Z with 0%Z. cbn [OsPath.has_stem].
change (Z.to_nat 0) with 0. unfold cs at 1. cbn [lookup list_lookup app].
rewrite decide_False by done. cbn [andb].
unfold cs. rewrite take_app_length', drop_app_length' by done. done.
Qed.



End PlainNames.

(** ** [str.replace] on the file name *)

Section Replace.

Lemma starts_with_spec (old s : list ascii) :
  Str.starts_with old s = true ↔ ∃ rest, s = old ++ rest.
Proof.
revert s. induction old as [|o old IH]; intros s; simpl.
- split; [by exists s|done].
- destruct s as [|c s].
  + split; [done|]. by intros [rest ?].
  + rewrite andb_true_iff, bool_decide_eq_true, IH. split.
    * intros [-> [rest ->]]. by exists rest.
    * intros [rest [= -> ->]]. split; [done|by exists rest].
Qed.

(** Dropping the rest of an occurrence is skipping that many characters. *)
Lemma replace_from_skip (old new : list ascii) (s : list ascii) : ∀ k,
  Str.replace_from k old new s = Str.replace_from 0 old new (drop k s).
Proof.
induction s as [|c s IH]; intros [|k]; try done.
simpl. apply IH.
Qed.

Lemma replace_from_match (o : ascii) (old new rest : list ascii) :
  Str.replace_from 0 (o :: old) new ((o :: old) ++ rest)
  = new ++ Str.replace_from 0 (o :: old) new rest.
Proof.
assert (Hs : Str.starts_with (o :: old) ((o :: old) ++ rest) = true)
  by (apply starts_with_spec; by exists rest).
change ((o :: old) ++ rest) with (o :: (old ++ rest)) in *.
cbn [Str.replace_from]. rewrite Hs. f_equal.
rewrite replace_from_skip.
replace (length (o :: old) - 1) with (length old) by (simpl; lia).
by rewrite drop_app_length.
Qed.

Lemma replace_from_step (old new : list ascii) (c : ascii) (s : list ascii) :
  Str.starts_with old (c :: s) = false →
  Str.replace_from 0 old new (c :: s) = c :: Str.replace_from 0 old new s.
Proof. intros H. cbn [Str.replace_from]. by rewrite H. Qed.

Lemma replace_from_same (o : ascii) (old : list ascii) : ∀ s,
  Str.replace_from 0 (o :: old) (o :: old) s = s.
Proof.
intros s. remember (length s) as n eqn:Hn. revert s Hn.
induction n as [n IH] using lt_wf_ind. intros [|c s] Hn; [done|].
destruct (Str.starts_with (o :: old) (c :: s)) eqn:Hs.
- apply starts_with_spec in Hs as [rest Hrest]. rewrite Hrest.
  rewrite replace_from_match. f_equal.
  apply (IH (length rest)); [|done].
  rewrite Hn, Hrest, length_app. simpl. lia.
- rewrite replace_from_step by done. f_equal.
  apply (IH (length s)); [|done]. rewrite Hn. simpl. lia.
Qed.

Lemma replace_from_absent (old new : list ascii) : ∀ s,
  (∀ pre post, s ≠ pre ++ old ++ post) →
  Str.replace_from 0 old new s = s.
Proof.
induction s as [|c s IH]; intros Habs; [done|].
rewrite replace_from_step.
- f_equal. apply IH. intros pre post ->. by apply (Habs (c :: pre) post).
- destruct (Str.starts_with old (c :: s)) eqn:Hs; [|done].
  apply starts_with_spec in Hs as [rest Hrest].
  by destruct (Habs [] rest).
Qed.

Lemma concat_singletons {A} (l : list A) : concat ((λ c, [c]) <$> l) = l.
Proof. induction l as [|x l IH]; [done|]. rewrite fmap_cons. simpl. by f_equal. Qed.

Lemma replace_same (s old : string) : Str.replace s old old = s.
Proof.
unfold Str.replace. destruct (Str.chars old) as [|o l] eqn:Hold.
- simpl. rewrite concat_singletons. apply of_chars_chars.
- rewrite replace_from_same. apply of_chars_chars.
Qed.

(** X13.  Converting a file to the format its extension already names
    keeps the file name. *)
Theorem output_name_same_format (file_name : string) (c : conversion) :
  extension_of file_name = target_extension c →
  output_name file_name (extension_of file_name) c = file_name.
Proof. intros H. unfold output_name. rewrite H. apply replace_same. Qed.

Lemma output_name_same_format_witness :
  output_name "a.csv.csv" (extension_of "a.csv.csv") CSV = "a.csv.csv"%string.
Proof. by apply (output_name_same_format "a.csv.csv" CSV). Defined.

(** X14.  When the lower-cased extension does not occur in the file name
    as written, the converted file keeps the name of the upload, whatever
    the target format. *)
Theorem output_name_without_occurrence
        (file_name file_extension : string) (c : conversion) :
  file_extension ≠ EmptyString →
  (∀ pre post,
     Str.chars file_name ≠ pre ++ Str.chars file_extension ++ post) →
  output_name file_name file_extension c = file_name.
Proof.
intros Hne Habs. unfold output_name, Str.replace.
destruct (Str.chars file_extension) as [|o l] eqn:Hext.
- destruct Hne. apply chars_inj. by rewrite Hext.
- rewrite replace_from_absent by done. apply of_chars_chars.
Qed.

End Replace.

Section ReplaceWitness.

Lemma output_name_without_occurrence_witness :
  output_name "REPORT.CSV" ".csv" Excel = "REPORT.CSV"%string.
Proof.
apply (output_name_without_occurrence "REPORT.CSV" ".csv" Excel).
- discriminate.
- intros pre post H.
  assert (Hin : "c"%char ∈ Str.chars "REPORT.CSV").
  { rewrite H. rewrite !elem_of_app. right. left.
    apply (bool_decide_unpack _). vm_compute. reflexivity. }
  revert Hin. apply (bool_decide_unpack _). vm_compute. reflexivity.
Defined.

End ReplaceWitness.

Section PlainOutputName.

Lemma replace_from_dotfree (e new : list ascii) : ∀ pre,
  OsPath.extsep ∉ pre →
  Str.replace_from 0 (OsPath.extsep :: e) new (pre ++ OsPath.extsep :: e)
  = pre ++ new.
Proof.
induction pre as [|c pre IH]; intros Hdot.
- replace ([] ++ OsPath.extsep :: e) with ((OsPath.extsep :: e) ++ [])
    by (by rewrite app_nil_r).
  rewrite replace_from_match. simpl. by rewrite app_nil_r.
- apply not_elem_of_cons in Hdot as [Hc Hpre].
  change ((c :: pre) ++ OsPath.extsep :: e)
    with (c :: (pre ++ OsPath.extsep :: e)).
  rewrite replace_from_step.
  + simpl. f_equal. by apply IH.
  + simpl. by rewrite bool_decide_eq_false_2.
Qed.

(** X15.  For a name made of a stem without dot or path separator, a dot
    and a lower-case suffix without dot or separator, the converted file
    is named by the stem followed by the extension of the target format:
    the name the conversion rule asks for. *)
Theorem output_name_plain_name (c0 : ascii) (stem e : list ascii) (c : conversion) :
  OsPath.extsep ∉ c0 :: stem → OsPath.sep ∉ c0 :: stem →
  OsPath.extsep ∉ e → OsPath.sep ∉ e →
  Str.lower_char <$> e = e →
  output_name (Str.of_chars ((c0 :: stem) ++ OsPath.extsep :: e))
              (extension_of (Str.of_chars ((c0 :: stem) ++ OsPath.extsep :: e)))
              c
    = Str.of_chars ((c0 :: stem) ++ Str.chars (target_extension c)) ∧
  replace_extension (Str.of_chars ((c0 :: stem) ++ OsPath.extsep :: e)) c
    = Str.of_chars ((c0 :: stem) ++ Str.chars (target_extension c)).
Proof.
intros Hdot Hsep Hdot_e Hsep_e Hlow.
assert (Hc0 : c0 ≠ OsPath.extsep).
{ intros ->. apply Hdot. by left. }
pose proof (splitext_plain c0 stem e Hc0 Hsep Hdot_e Hsep_e) as Hsplit.
split.
- unfold extension_of. rewrite Hsplit. cbn [snd].
  rewrite lower_of_chars, fmap_cons, Hlow.
  change (Str.lower_char OsPath.extsep) with OsPath.extsep.
  unfold output_name, Str.replace. rewrite !chars_of_chars.
  by rewrite replace_from_dotfree.
- unfold replace_extension. rewrite Hsplit. cbn [fst].
  by rewrite of_chars_app, of_chars_chars.
Qed.

Lemma output_name_plain_name_witness :
  output_name "sales_2024.csv" (extension_of "sales_2024.csv") Excel
    = "sales_2024.xlsx"%string ∧
  replace_extension "sales_2024.csv" Excel = "sales_2024.xlsx"%string.
Proof.
apply (output_name_plain_name "s" (Str.chars "ales_2024") (Str.chars "csv") Excel);
  first [ reflexivity | apply (bool_decide_unpack _); vm_compute; reflexivity ].
Defined.

End PlainOutputName.

(** * The run as a whole *)

(** ** Completion *)

Section Completion.

Variable ui : string → widgets.

Lemma process_file_some_iff (file : UploadedFile) (s : state) :
  is_Some (process_file ui file s) ↔ readable file.
Proof.
unfold process_file, readable.
destruct (decide (extension_of (name file) = ".csv"%string)) as [Hc|Hc].
- rewrite Hc. destruct (read_csv file) as [df|]; simpl; split.
  + intros _. split; [by eexists|discriminate].
  + intros _. by eexists.
  + by intros [? ?].
  + intros [H _]. by destruct (H eq_refl).
- destruct (decide (extension_of (name file) = ".xlsx"%string)) as [Hx|Hx].
  + rewrite Hx. destruct (read_excel file) as [df|]; simpl; split.
    * intros _. split; [discriminate|by eexists].
    * intros _. by eexists.
    * by intros [? ?].
    * intros [_ H]. by destruct (H eq_refl).
  + split; [|by eexists]. intros _. split; intros; done.
Qed.

Lemma process_files_some_iff (files : list UploadedFile) : ∀ s,
  is_Some (process_files ui files s) ↔ Forall readable files.
Proof.
induction files as [|file files IH]; intros s.
- split; [constructor|by eexists].
- rewrite Forall_cons, <- (process_file_some_iff file s). simpl.
  destruct (process_file ui file s) as [s1|]; simpl.
  + rewrite IH. split; [intros ?; split; [by eexists|done]|tauto].
  + split; [by intros [? ?]|]. intros [[? ?] _]. done.
Qed.

Lemma main_some_iff_loop (uploaded_files : list UploadedFile) :
  is_Some (main ui uploaded_files) ↔
  is_Some (process_files ui uploaded_files initial).
Proof.
unfold main.
destruct (process_files ui uploaded_files initial) as [s|]; simpl.
- split; intros _; by eexists.
- split; by intros [? ?].
Qed.


End Completion.

(** ** Reports *)

Section Reports.

Variable ui : string → widgets.

Lemma errors_render e s :
  errors (render e s) =
  errors s ++ match e with st_error_unsupported x => [x] | _ => [] end.
Proof. unfold errors, render. simpl. rewrite omap_app. by destruct e. Qed.

Lemma clean_errors w (df : DataFrame) s : errors (clean w df s).2 = errors s.
Proof.
unfold clean.
destruct (btn_remove_duplicates w), (btn_normalize w), (btn_fill_missing w);
  simpl; rewrite ?errors_render; simpl; rewrite ?app_nil_r; done.
Qed.

Lemma visualize_errors w (df : DataFrame) s : errors (visualize w df s) = errors s.
Proof.
unfold visualize. case_match; [|done].
rewrite errors_render. simpl. by rewrite app_nil_r.
Qed.

Lemma pipeline_errors file ext (df : DataFrame) s :
  errors (pipeline ui file ext df s) = errors s.
Proof.
unfold pipeline.
set (s3 := render (st_dataframe (head df))
             (render (st_write_size (size file))
                (render (st_subheader (name file)) s))).
assert (H3 : errors s3 = errors s).
{ unfold s3. rewrite !errors_render. simpl. by rewrite !app_nil_r. }
pose proof (clean_errors (ui (name file)) df s3) as Hc.
destruct (clean (ui (name file)) df s3) as [df' s4]. simpl in Hc.
pose proof (visualize_errors (ui (name file)) df' s4) as Hv.
unfold convert. rewrite errors_render. simpl. rewrite app_nil_r.
unfold errors in *. simpl. by rewrite Hv, Hc, H3.
Qed.

Lemma process_file_errors file s s' :
  process_file ui file s = Some s' →
  errors s' = errors s ++
              (if supported file then [] else [extension_of (name file)]).
Proof.
unfold process_file, supported.
destruct (decide (extension_of (name file) = ".csv"%string)) as [Hc|Hc].
- rewrite (bool_decide_eq_true_2 _ Hc). simpl.
  destruct (read_csv file) as [df|]; simpl; [|done].
  intros [= <-]. by rewrite pipeline_errors, app_nil_r.
- rewrite (bool_decide_eq_false_2 _ Hc). simpl.
  destruct (decide (extension_of (name file) = ".xlsx"%string)) as [Hx|Hx].
  + rewrite (bool_decide_eq_true_2 _ Hx).
    destruct (read_excel file) as [df|]; simpl; [|done].
    intros [= <-]. by rewrite pipeline_errors, app_nil_r.
  + rewrite (bool_decide_eq_false_2 _ Hx).
    intros [= <-]. by rewrite errors_render.
Qed.

Lemma process_files_errors files : ∀ s s',
  process_files ui files s = Some s' →
  errors s' = errors s ++
              ((λ file, extension_of (name file)) <$>
                 filter (λ file, supported file = false) files).
Proof.
induction files as [|file files IH]; intros s s'.
- intros [= <-]. simpl. by rewrite app_nil_r.
- cbn [process_files].
  destruct (process_file ui file s) as [s1|] eqn:H1; [|done].
  cbn [mbind option_bind]. intros H.
  apply process_file_errors in H1. apply IH in H.
  rewrite H, H1, <- app_assoc. f_equal.
  rewrite filter_cons. by destruct (supported file).
Qed.

(** X17.  On the page of a completed run the unsupported-extension reports
    are those of the files with an extension other than [.csv] and
    [.xlsx], one each, in upload order; nothing else is reported, and the
    page ends with the success message whether or not files were
    reported. *)
Theorem reports_of_run (uploaded_files : list UploadedFile) (s : state) :
  main ui uploaded_files = Some s →
  errors s = (λ file, extension_of (name file)) <$>
               filter (λ file, supported file = false) uploaded_files ∧
  last (page s) = Some st_success.
Proof.
unfold main.
destruct (process_files ui uploaded_files initial) as [s1|] eqn:H1; [|done].
simpl. intros [= <-]. apply process_files_errors in H1. simpl in H1.
split.
- rewrite errors_render. simpl. rewrite app_nil_r. unfold bundle.
  destruct (processed_files s1); [done|].
  rewrite errors_render. simpl. by rewrite app_nil_r.
- unfold render. simpl. apply last_snoc.
Qed.

End Reports.

Section ReportsWitness.

Lemma reports_of_run_witness :
  ∃ s, main ui_csv [a_csv; notes_txt; b_csv] = Some s ∧
       errors s = [".txt"%string] ∧ last (page s) = Some st_success.
Proof.
destruct (main ui_csv [a_csv; notes_txt; b_csv]) as [s|] eqn:Hmain;
  [|by vm_compute in Hmain].
exists s. split; [done|].
destruct (reports_of_run ui_csv [a_csv; notes_txt; b_csv] s Hmain) as [He Hl].
split; [|done]. rewrite He. reflexivity.
Defined.

End ReportsWitness.

(** ** Charts *)

Section Charts.

Lemma selectbox_elem (options : list string) (i : nat) :
  options ≠ [] → selectbox options i ∈ options.
Proof.
intros Hne. unfold selectbox.
destruct (options !! i) as [x|] eqn:Hi; simpl.
- by eapply list_elem_of_lookup_2.
- destruct options as [|x options]; [done|]. simpl. by left.
Qed.

(** X18.  Behind the guard one chart is drawn; it is drawn from the table
    as cleaned, and every axis it reads is the label of a numeric column
    of that table. *)
Theorem chart_reads_numeric_columns (w : widgets) (df : DataFrame) (s : state) :
  2 ≤ length (columns (select_dtypes_number df)) →
  ∃ fig, visualize w df s = render (st_plotly_chart fig) s ∧
         fig_data fig = df ∧
         Forall (λ a, a ∈ columns (select_dtypes_number df)) (fig_axes fig).
Proof.
intros H. unfold visualize.
destruct (2 <=? length (columns (select_dtypes_number df)))%nat eqn:Hle.
2: { apply Nat.leb_gt in Hle. lia. }
assert (Hne : columns (select_dtypes_number df) ≠ []).
{ intros Heq. rewrite Heq in H. simpl in H. lia. }
pose proof (selectbox_elem _ (x_axis w) Hne) as Hx.
pose proof (selectbox_elem _ (y_axis w) Hne) as Hy.
eexists. split; [done|].
destruct (chart_type w); simpl; (split; [done|]); repeat constructor; done.
Qed.

Lemma chart_reads_numeric_columns_witness :
  ∃ fig, visualize (Widgets false false false ScatterPlot 1 7 CSV)
                   [("a"%string, NumCol [num 1]); ("b"%string, NumCol [num 2])]
                   initial
         = render (st_plotly_chart fig) initial ∧
         fig_axes fig = ["b"; "a"]%string.
Proof.
destruct (chart_reads_numeric_columns
            (Widgets false false false ScatterPlot 1 7 CSV)
            [("a"%string, NumCol [num 1]); ("b"%string, NumCol [num 2])]
            initial) as (fig & Hv & _ & _).
- vm_compute. lia.
- exists fig. split; [exact Hv|].
  unfold visualize in Hv. simpl in Hv.
  unfold render in Hv. simpl in Hv. by injection Hv as <-.
Defined.

End Charts.

(** ** Outputs and the chart settings *)

Section ChartSettings.

Variables ui ui' : string → widgets.
Hypothesis agree : ∀ n, same_buttons (ui n) (ui' n).

Lemma clean_same_buttons w w' (df : DataFrame) s :
  same_buttons w w' → (clean w df s).1 = (clean w' df s).1.
Proof.
intros (H1 & H2 & H3 & _). unfold clean. rewrite H1, H2, H3.
by destruct (btn_remove_duplicates w'), (btn_normalize w'), (btn_fill_missing w').
Qed.

Lemma converted_same_buttons file (df : DataFrame) :
  converted ui file df = converted ui' file df.
Proof using agree.
unfold converted.
rewrite (clean_same_buttons _ _ df initial (agree (name file))).
by destruct (agree (name file)) as (_ & _ & _ & ->).
Qed.

Lemma individual_download_same_buttons file :
  individual_download ui file = individual_download ui' file.
Proof using agree.
unfold individual_download.
repeat case_decide; try done;
  destruct (read_csv file), (read_excel file); simpl;
  by rewrite ?converted_same_buttons.
Qed.

End ChartSettings.

Section RunOutputs.

(** The downloads and the archive of a completed run. *)
Lemma main_outputs (ui : string → widgets) (files : list UploadedFile) (s : state) :
  main ui files = Some s →
  downloads s = omap (individual_download ui) files ∧
  archives s = match dict_of (omap (individual_download ui) files) with
               | [] => []
               | d => [d]
               end.
Proof.
unfold main.
destruct (process_files ui files initial) as [s1|] eqn:H1; [|done].
simpl. intros [= <-].
apply process_files_state in H1 as (Hd & Ha & Hp). simpl in Hd, Ha, Hp.
fold (dict_of (omap (individual_download ui) files)) in Hp.
destruct (bundle_state s1 Ha) as (Hd' & Ha').
by rewrite Hd', Ha', Hp, Hd.
Qed.



End RunOutputs.

(** * Edge cases *)

Section NothingMissing.

(** X20.  When no numeric column has a missing cell, [fill_missing]
    returns the table unchanged. *)
Theorem fill_missing_nothing_missing (df : DataFrame) :
  wf df →
  (∀ c (vs : list Float.t), (c, NumCol vs) ∈ df → None ∉ vs) →
  fill_missing df = df.
Proof.
intros [Hnd _] Hfull. rewrite fill_missing_by_column by done.
unfold map_numeric. rewrite <- (list_fmap_id df) at 2.
apply fmap_ext_elem. intros [n [vs|vs]] Hin; simpl; [|done].
unfold fill_col. by rewrite (fill_cell_present_id _ vs (Hfull n vs Hin)).
Qed.

Lemma fill_missing_nothing_missing_witness :
  fill_missing ex_dups = ex_dups.
Proof.
apply (fill_missing_nothing_missing ex_dups); [solve_wf|].
intros c vs Hin Hnone.
assert (Hvs : vs = [num 1; num 1; num 2]).
{ apply elem_of_cons in Hin as [[= _ _]|Hin].
  apply elem_of_cons in Hin as [[= _ ->]|Hin]; [done|].
  by apply elem_of_nil in Hin. }
subst vs. revert Hnone. apply (bool_decide_unpack _). vm_compute. reflexivity.
Defined.

End NothingMissing.

Section LeadingDots.

Local Open Scope Z_scope.

Lemma has_stem_dots (cs : list ascii) : ∀ fuel i,
  (0 ≤ i) →
  (∀ j, (Z.to_nat i ≤ j < Z.to_nat i + fuel)%nat → cs !! j = Some OsPath.extsep) →
  OsPath.has_stem fuel cs i = false.
Proof.
induction fuel as [|fuel IH]; intros i Hi Hdots; [done|].
cbn [OsPath.has_stem]. rewrite (Hdots (Z.to_nat i)) by lia.
rewrite decide_True by done. apply IH; [lia|].
intros j Hj. apply Hdots. lia.
Qed.

(** X21.  A name that is a run of dots followed by characters with
    neither dot nor path separator (such as [.csv] itself) has no
    extension for [splitext]: the loop reports it as unsupported, with an
    empty extension. *)
Theorem leading_dots_unsupported
        (ui : string → widgets) (file : UploadedFile) (s : state)
        (n : nat) (rest : list ascii) :
  name file = Str.of_chars (replicate (S n) OsPath.extsep ++ rest) →
  OsPath.extsep ∉ rest → OsPath.sep ∉ rest →
  OsPath.splitext (name file) = (name file, EmptyString) ∧
  process_file ui file s = Some (render (st_error_unsupported EmptyString) s).
Proof.
intros Hname Hdot Hsep.
set (cs := replicate (S n) OsPath.extsep ++ rest) in *.
assert (Hsplit : OsPath.splitext (name file) = (name file, EmptyString)).
{ unfold OsPath.splitext. rewrite Hname, chars_of_chars. fold cs.
  assert (Hd : Str.rfind cs OsPath.extsep = Z.of_nat n).
  { apply rfind_last.
    - unfold cs. rewrite lookup_app_l by (rewrite length_replicate; lia).
      apply lookup_replicate_2. lia.
    - intros j Hj Hlook. unfold cs in Hlook.
      destruct (decide (j < S n)%nat) as [Hlt|Hge].
      + rewrite lookup_app_l in Hlook by (by rewrite length_replicate).
        apply lookup_replicate in Hlook. lia.
      + rewrite lookup_app_r in Hlook by (rewrite length_replicate; lia).
        apply Hdot. by eapply list_elem_of_lookup_2. }
  assert (Hs : Str.rfind cs OsPath.sep = -1).
  { apply rfind_absent. unfold cs. intros [H|H]%elem_of_app; [|done].
    apply elem_of_replicate in H as [H _]. discriminate H. }
  rewrite Hd, Hs, has_stem_dots; [by rewrite andb_false_r|lia|].
  intros j Hj. unfold cs.
  rewrite lookup_app_l by (rewrite length_replicate; lia).
  apply lookup_replicate_2. lia. }
split; [done|].
unfold process_file, extension_of. rewrite Hsplit. simpl.
done.
Qed.

Lemma leading_dots_unsupported_witness :
  OsPath.splitext ".csv" = (".csv", "")%string ∧
  process_file ui_csv (Upload ".csv" 5 (Some table_x) None) initial
    = Some (render (st_error_unsupported "") initial).
Proof.
apply (leading_dots_unsupported ui_csv (Upload ".csv" 5 (Some table_x) None)
         initial 0 (Str.chars "csv"));
  first [ reflexivity | apply (bool_decide_unpack _); vm_compute; reflexivity ].
Defined.

End LeadingDots.
